(** * The bloop SDK (bloop.ts): tracing, auto-instrumentation and delivery

    A shallow embedding of the TypeScript client: JavaScript values and the
    handful of language operations the SDK relies on, the [Span] and [Trace]
    classes, the [BloopClient] methods, and the interleavings of its
    asynchronous flushes.

    How the program is read:
    - a [Span] is an object shared by the trace that created it and by
      whoever holds it, so spans live in a heap and are passed by reference;
      a [Trace] has one holder and is passed by value;
    - there is one [BloopClient]; its fields are fields of the [World];
    - [Date.now()] reads a clock that stands still while the SDK runs and
      moves only while the host program runs or a call is awaited;
    - an [await] of a host function is one step of the world: the world the
      function returns in accounts for everything that happened meanwhile;
    - the suspensions of the flushes are explicit ([Task]), because their
      order matters; the promise a flush is suspended on is fulfilled
      ([resume]) or rejected ([reject]);
    - [_modelCosts], [MODEL_COSTS] and [PROVIDER_MAP] are plain objects
      indexed by a name from outside: their own entries are a finite map,
      and indexing also finds what a plain object inherits;
    - of [sign], the writing of the signature in hexadecimal is part of the
      embedding; the HMAC itself is the platform's, and its bytes are
      taken as given. *)

From Stdlib Require Import ZArith String List Floats.
From stdpp Require Import base option list gmap strings.

Set Warnings "-inexact-float,-register-all,-abstract-large-number".
Local Open Scope string_scope.
Local Open Scope Z_scope.
Local Open Scope list_scope.

(** ** JavaScript values *)

(** What [detectProvider] answers: the name of a provider or, for a host
    named after a member [PROVIDER_MAP] inherits as a plain object, that
    member (a function, or the prototype itself), known by its name.  A
    string is read as a provider of that name. *)
Inductive Provider : Type :=
| Named (name : string)
| Inherited (member : string).

Coercion Named : string >-> Provider.

(** The [get] traps the SDK installs.  Each [new Proxy(x, { get ... })] in
    [wrapOpenAI] and [wrapAnthropic] is one handler; the OpenAI ones close
    over the provider detected at wrap time. *)
Inductive Handler : Type :=
| HOpenAI (provider : Provider)
| HChat (provider : Provider)
| HCompletions (provider : Provider)
| HEmbeddings (provider : Provider)
| HAnthropic
| HMessages.

(** The [async function (...args)] closures the leaf traps return. *)
Inductive TracedCall : Type :=
| OpenAICall (provider : Provider) (method : string)
| AnthropicCall.

(** Numbers are IEEE binary64 ([float]); strings are sequences of code
    units; an object literal is its list of own data properties in insertion
    order, each writable and configurable; [VFrozen] is such an object after
    [Object.freeze], its properties neither writable nor configurable any
    more; [VError] is an instance of [Error]; [VFun] a function of the host
    program, known by its number; [VProxy] a proxy created by the SDK and
    [VTraced k fn this] the closure that calls [fn.bind(this)] under a
    trace.  Accessor properties, symbols and bigints are outside the model,
    and so are the properties these values inherit from the built-in
    prototypes. *)
Inductive Value : Type :=
| VUndefined
| VNull
| VBool (b : bool)
| VNum (x : float)
| VStr (s : string)
| VArr (items : list Value)
| VObj (props : list (string * Value))
| VFrozen (props : list (string * Value))
| VError (name message : string)
| VFun (f : nat)
| VProxy (h : Handler) (target : Value)
| VTraced (k : TracedCall) (fn this : Value).

(** A completion: a value, or a thrown value.  A promise that resolves or
    rejects is read the same way at the [await] that consumes it. *)
Inductive Outcome (A : Type) : Type :=
| Returns (a : A)
| Throws (e : Value).
Arguments Returns {A} a.
Arguments Throws {A} e.

#[global] Instance Outcome_ret : MRet Outcome := fun _ a => Returns a.
#[global] Instance Outcome_bind : MBind Outcome := fun _ _ k m =>
  match m with
  | Returns a => k a
  | Throws e => Throws e
  end.

Definition TypeError (message : string) : Value := VError "TypeError" message.

(** ToBoolean. *)
Definition truthy (v : Value) : bool :=
  match v with
  | VUndefined | VNull => false
  | VBool b => b
  | VNum x => negb (PrimFloat.is_zero x || PrimFloat.is_nan x)
  | VStr s => negb (String.eqb s "")
  | _ => true
  end.

(** [a || b] and [a ?? b], on values already computed. *)
Definition js_or (a b : Value) : Value := if truthy a then a else b.

Definition nullish (v : Value) : bool :=
  match v with
  | VUndefined | VNull => true
  | _ => false
  end.

Definition js_coalesce (a b : Value) : Value := if nullish a then b else a.

(** What [new Proxy] and [Reflect.get] accept as a target. *)
Definition is_object (v : Value) : bool :=
  match v with
  | VArr _ | VObj _ | VFrozen _ | VError _ _ | VFun _ | VProxy _ _ | VTraced _ _ _ => true
  | _ => false
  end.

(** [typeof v === "function"]; a proxy is callable when its target is. *)
Fixpoint is_function (v : Value) : bool :=
  match v with
  | VFun _ | VTraced _ _ _ => true
  | VProxy _ t => is_function t
  | _ => false
  end.

(** [v instanceof Error]. *)
Fixpoint instanceof_Error (v : Value) : bool :=
  match v with
  | VError _ _ => true
  | VProxy _ t => instanceof_Error t
  | _ => false
  end.

(** Own data property of an object literal. *)
Fixpoint own_property (props : list (string * Value)) (key : string) : Value :=
  match props with
  | [] => VUndefined
  | (k, v) :: rest => if String.eqb k key then v else own_property rest key
  end.

(** Array index named by a property key: a canonical decimal numeral. *)
Definition digit_of (c : Ascii.ascii) : option nat :=
  let n := Ascii.nat_of_ascii c in
  if ((48 <=? n) && (n <=? 57))%nat then Some (n - 48)%nat else None.

Fixpoint digits_value (s : string) (acc : nat) : option nat :=
  match s with
  | EmptyString => Some acc
  | String c rest =>
      match digit_of c with
      | Some d => digits_value rest (10 * acc + d)%nat
      | None => None
      end
  end.

Definition index_of_key (key : string) : option nat :=
  match key with
  | EmptyString => None
  | String (Ascii.Ascii false false false false true true false false) (String _ _) => None
  | _ => digits_value key 0%nat
  end.

(** The Number holding an integer. *)
Definition Number_of_Z (z : Z) : float :=
  SF2Prim (SpecFloat.binary_normalize FloatOps.prec FloatOps.emax z 0 false).

Definition Number_of_nat (n : nat) : float := Number_of_Z (Z.of_nat n).

Definition new_Proxy (h : Handler) (target : Value) : Outcome Value :=
  if is_object target then Returns (VProxy h target)
  else Throws (TypeError "Cannot create proxy with a non-object as target or handler").

(** The body of each [get(target, prop, receiver)] trap, after its first
    line [const val = Reflect.get(target, prop, receiver)] has produced
    [val]. *)
Definition trap_get (h : Handler) (target : Value) (prop : string) (val : Value)
  : Outcome Value :=
  match h with
  | HOpenAI provider =>
      if String.eqb prop "chat" then new_Proxy (HChat provider) val
      else if String.eqb prop "embeddings" then new_Proxy (HEmbeddings provider) val
      else Returns val
  | HChat provider =>
      if String.eqb prop "completions" then new_Proxy (HCompletions provider) val
      else Returns val
  | HCompletions provider =>
      if String.eqb prop "create" && is_function val
      then Returns (VTraced (OpenAICall provider "chat.completions.create") val target)
      else Returns val
  | HEmbeddings provider =>
      if String.eqb prop "create" && is_function val
      then Returns (VTraced (OpenAICall provider "embeddings.create") val target)
      else Returns val
  | HAnthropic =>
      if String.eqb prop "messages" then new_Proxy HMessages val
      else Returns val
  | HMessages =>
      if String.eqb prop "create" && is_function val
      then Returns (VTraced AnthropicCall val target)
      else Returns val
  end.

(** Whether the trap answers with the value it read ([return val]) and not
    with a proxy or a closure made for the occasion. *)
Definition hands_on (h : Handler) (prop : string) (val : Value) : bool :=
  match h with
  | HOpenAI _ => negb (String.eqb prop "chat" || String.eqb prop "embeddings")
  | HChat _ => negb (String.eqb prop "completions")
  | HAnthropic => negb (String.eqb prop "messages")
  | HCompletions _ | HEmbeddings _ | HMessages =>
      negb (String.eqb prop "create" && is_function val)
  end.

(** Whether [prop] is an own data property of the target that is neither
    writable nor configurable.  A proxy without a [getOwnPropertyDescriptor]
    trap answers for its target. *)
Fixpoint fixed_member (target : Value) (prop : string) : bool :=
  match target with
  | VFrozen props => existsb (fun kv => String.eqb (fst kv) prop) props
  | VProxy _ t => fixed_member t prop
  | _ => false
  end.

(** [[Get]] on a value that is not [undefined] or [null].  On a proxy it runs
    the trap, and then checks the answer as the language requires of every
    proxy: for a property of the target that is neither writable nor
    configurable, an answer other than the property's value is a
    [TypeError].  Everywhere else it reads an own data property and cannot
    throw.  A proxy's target is an object by construction ([new_Proxy]), so
    the two first cases are never reached through one. *)
Fixpoint Reflect_get (target : Value) (prop : string) : Outcome Value :=
  match target with
  | VUndefined | VNull => Returns VUndefined
  | VBool _ | VNum _ | VFun _ | VTraced _ _ _ => Returns VUndefined
  | VStr s =>
      if String.eqb prop "length" then Returns (VNum (Number_of_nat (String.length s)))
      else match index_of_key prop with
           | Some i =>
               match String.get i s with
               | Some c => Returns (VStr (String c EmptyString))
               | None => Returns VUndefined
               end
           | None => Returns VUndefined
           end
  | VArr items =>
      if String.eqb prop "length" then Returns (VNum (Number_of_nat (length items)))
      else match index_of_key prop with
           | Some i => Returns (nth i items VUndefined)
           | None => Returns VUndefined
           end
  | VObj props | VFrozen props => Returns (own_property props prop)
  | VError name message =>
      if String.eqb prop "name" then Returns (VStr name)
      else if String.eqb prop "message" then Returns (VStr message)
      else Returns VUndefined
  | VProxy h t =>
      val ← Reflect_get t prop;
      answer ← trap_get h t prop val;
      if fixed_member t prop && negb (hands_on h prop val)
      then Throws (TypeError "'get' on proxy: the trap did not answer with the value of a read-only, non-configurable property")
      else Returns answer
  end.

(** [v.prop] and [v?.prop]. *)
Definition js_get (v : Value) (prop : string) : Outcome Value :=
  if nullish v
  then Throws (TypeError ("Cannot read properties of " +:+
                          (if v is VNull then "null" else "undefined")))
  else Reflect_get v prop.

Definition opt_get (v : Value) (prop : string) : Outcome Value :=
  if nullish v then Returns VUndefined else Reflect_get v prop.

(** ** Spans *)

Inductive SpanType : Type := generation | tool | retrieval | custom.
Inductive SpanStatus : Type := SpanOk | SpanError.
Inductive TraceStatus : Type := running | completed | TraceError.

Definition SpanType_literal (t : SpanType) : string :=
  match t with
  | generation => "generation"
  | tool => "tool"
  | retrieval => "retrieval"
  | custom => "custom"
  end.

Definition SpanStatus_literal (s : SpanStatus) : string :=
  match s with
  | SpanOk => "ok"
  | SpanError => "error"
  end.

Definition TraceStatus_literal (s : TraceStatus) : string :=
  match s with
  | running => "running"
  | completed => "completed"
  | TraceError => "error"
  end.

(** An optional member of an interface: [undefined] when it is left out. *)
Definition optional {A : Type} (inj : A -> Value) (o : option A) : Value :=
  match o with
  | Some a => inj a
  | None => VUndefined
  end.

Definition VInt (z : Z) : Value := VNum (Number_of_Z z).

(** [SpanOptions & { parentSpanId?: string | null }].  The members the
    SDK's own callers fill from untyped values are kept as values. *)
Module SpanOptions.
Record t : Type := mk {
  spanType : SpanType;
  name : option string;
  model : Value;
  provider : Value;
  input : Value;
  metadata : Value;
  parentSpanId : Value;
}.
End SpanOptions.

Module SpanEndOptions.
Record t : Type := mk {
  inputTokens : Value;
  outputTokens : Value;
  cost : Value;
  status : SpanStatus;
  errorMessage : Value;
  output : Value;
  timeToFirstTokenMs : Value;
}.
End SpanEndOptions.

Module Span.
Record t : Type := mk {
  id : string;
  parentSpanId : Value;
  spanType : SpanType;
  name : string;
  model : Value;
  provider : Value;
  startedAt : Z;
  input : Value;
  metadata : Value;
  (* Set on end() *)
  inputTokens : Value;
  outputTokens : Value;
  cost : Value;
  latencyMs : option Z;
  timeToFirstTokenMs : Value;
  status : option SpanStatus;
  errorMessage : Value;
  output : Value;
}.

(** [constructor(opts)], given the identifier [crypto.randomUUID()] drew and
    the reading of [Date.now()]. *)
Definition new (uuid : string) (now : Z) (opts : SpanOptions.t) : t :=
  {| id := uuid;
     parentSpanId := js_coalesce (SpanOptions.parentSpanId opts) VNull;
     spanType := SpanOptions.spanType opts;
     name := match SpanOptions.name opts with
             | Some n => n
             | None => SpanType_literal (SpanOptions.spanType opts)
             end;
     model := SpanOptions.model opts;
     provider := SpanOptions.provider opts;
     startedAt := now;
     input := SpanOptions.input opts;
     metadata := SpanOptions.metadata opts;
     inputTokens := VUndefined;
     outputTokens := VUndefined;
     cost := VUndefined;
     latencyMs := None;
     timeToFirstTokenMs := VUndefined;
     status := None;
     errorMessage := VUndefined;
     output := VUndefined |}.

(** [end(opts)], given the reading of [Date.now()]. *)
Definition end_ (now : Z) (opts : SpanEndOptions.t) (s : t) : t :=
  {| id := id s;
     parentSpanId := parentSpanId s;
     spanType := spanType s;
     name := name s;
     model := model s;
     provider := provider s;
     startedAt := startedAt s;
     input := input s;
     metadata := metadata s;
     inputTokens := SpanEndOptions.inputTokens opts;
     outputTokens := SpanEndOptions.outputTokens opts;
     cost := SpanEndOptions.cost opts;
     latencyMs := Some (now - startedAt s);
     timeToFirstTokenMs := SpanEndOptions.timeToFirstTokenMs opts;
     status := Some (SpanEndOptions.status opts);
     errorMessage := SpanEndOptions.errorMessage opts;
     output := SpanEndOptions.output opts |}.

Definition toJSON (s : t) : Value :=
  VObj [ ("id", VStr (id s));
         ("parent_span_id", parentSpanId s);
         ("span_type", VStr (SpanType_literal (spanType s)));
         ("name", VStr (name s));
         ("model", js_coalesce (model s) VNull);
         ("provider", js_coalesce (provider s) VNull);
         ("input", js_coalesce (input s) VNull);
         ("output", js_coalesce (output s) VNull);
         ("metadata", js_coalesce (metadata s) VNull);
         ("started_at", VInt (startedAt s));
         ("input_tokens", js_coalesce (inputTokens s) VNull);
         ("output_tokens", js_coalesce (outputTokens s) VNull);
         ("cost", js_coalesce (cost s) VNull);
         ("latency_ms", js_coalesce (optional VInt (latencyMs s)) VNull);
         ("time_to_first_token_ms", js_coalesce (timeToFirstTokenMs s) VNull);
         ("status",
          js_coalesce (optional (fun st => VStr (SpanStatus_literal st)) (status s)) VNull);
         ("error_message", js_coalesce (errorMessage s) VNull) ].
End Span.

(** ** The client's state and its surroundings *)

Record Rates : Type := { input : float; output : float }.

(** *** Plain objects used as tables of rates

    [_modelCosts] and [MODEL_COSTS] are plain objects, indexed by whatever
    the caller named as the model.  [table[key]] finds an own entry or,
    failing that, what the object inherits: the members of
    [Object.prototype], which every plain object has behind it. *)

(** The members of [Object.prototype]: functions, and [__proto__], the
    accessor that answers the prototype of the object it is read on and
    replaces it when it is assigned an object. *)
Definition Object_prototype : list string :=
  [ "constructor"; "__defineGetter__"; "__defineSetter__"; "hasOwnProperty";
    "__lookupGetter__"; "__lookupSetter__"; "isPrototypeOf";
    "propertyIsEnumerable"; "toString"; "valueOf"; "__proto__";
    "toLocaleString" ].

Definition inherited (key : string) : bool :=
  existsb (String.eqb key) Object_prototype.

(** A table of rates: its own entries and, once an assignment to
    [__proto__] has run, the rates object that took the place of its
    prototype (and has [Object.prototype] behind itself). *)
Record Table : Type := {
  entries : gmap string Rates;
  replaced : option Rates;
}.

(** What [table[key]] can answer. *)
Inductive Indexed : Type :=
| Entry (rates : Rates)
| Rate (x : float)
| Builtin
| Missing.

(** [table[key]].  [Entry] is an object holding rates: an own entry, or
    under [__proto__] the object put in place of the prototype; [Rate] is a
    number, a member of that object found through the prototype chain;
    [Builtin] is a member of [Object.prototype] (a function, or under
    [__proto__] that prototype itself); [Missing] is [undefined]. *)
Definition index (table : Table) (key : string) : Indexed :=
  if String.eqb key "__proto__" then
    match replaced table with
    | Some rates => Entry rates
    | None => Builtin
    end
  else
    match entries table !! key with
    | Some rates => Entry rates
    | None =>
        match replaced table with
        | Some rates =>
            if String.eqb key "input" then Rate (input rates)
            else if String.eqb key "output" then Rate (output rates)
            else if inherited key then Builtin else Missing
        | None => if inherited key then Builtin else Missing
        end
    end.

(** [table[key] = rates]: an own entry, except under [__proto__], where the
    assignment goes to the inherited accessor and makes [rates] the
    prototype. *)
Definition store (key : string) (rates : Rates) (table : Table) : Table :=
  if String.eqb key "__proto__"
  then {| entries := entries table; replaced := Some rates |}
  else {| entries := <[key := rates]> (entries table); replaced := replaced table |}.

(** ToBoolean of what indexing answers. *)
Definition found (i : Indexed) : bool :=
  match i with
  | Entry _ | Builtin => true
  | Rate x => truthy (VNum x)
  | Missing => false
  end.

(** [rates.input] or [rates.output] as a number: an object holding rates has
    the member; a number, a function and [Object.prototype] have not, and
    [undefined] as a number is NaN. *)
Definition rate_of (member : Rates -> float) (rates : Indexed) : float :=
  match rates with
  | Entry r => member r
  | _ => PrimFloat.nan
  end.

Inductive Endpoint : Type := IngestBatch | TracesBatch.

(** A flush that has started, by the [await] it is suspended at:
    [await this.keyReady], before the buffer is read;
    [await this.sign(body)], holding the items it spliced out;
    [await fetch(...)], the request issued; and, once it is over, resolved
    ([Settled]) or rejected ([Failed]). *)
Inductive Task : Type :=
| AwaitKey (e : Endpoint)
| AwaitSign (e : Endpoint) (items : list Value)
| AwaitFetch (e : Endpoint) (items : list Value)
| Settled
| Failed.

(** The members of [BloopConfig] the modelled methods read. *)
Record Config : Type := {
  source : string;
  environment : string;
  release : string;
  maxBufferSize : option Z;
}.

(** Everything the SDK reads or writes: the clock behind [Date.now()], the
    count of identifiers drawn from [crypto.randomUUID()], the [Span] objects
    allocated so far (a span reference is an index into [heap]), the fields
    of the one [BloopClient], its suspended flushes and the requests it has
    handed to [fetch]. *)
Record World : Type := {
  now : Z;
  rng : nat;
  heap : list Span.t;
  config : Config;
  buffer : list Value;
  traceBuffer : list Value;
  _modelCosts : Table;
  tasks : list Task;
  requests : list (Endpoint * list Value);
}.

Definition SpanRef : Type := nat.

Definition with_heap (f : list Span.t -> list Span.t) (w : World) : World :=
  {| now := now w; rng := rng w; heap := f (heap w); config := config w;
     buffer := buffer w; traceBuffer := traceBuffer w;
     _modelCosts := _modelCosts w; tasks := tasks w; requests := requests w |}.

Definition with_rng (n : nat) (w : World) : World :=
  {| now := now w; rng := n; heap := heap w; config := config w;
     buffer := buffer w; traceBuffer := traceBuffer w;
     _modelCosts := _modelCosts w; tasks := tasks w; requests := requests w |}.

Definition with_buffer (b : list Value) (w : World) : World :=
  {| now := now w; rng := rng w; heap := heap w; config := config w;
     buffer := b; traceBuffer := traceBuffer w;
     _modelCosts := _modelCosts w; tasks := tasks w; requests := requests w |}.

Definition with_traceBuffer (b : list Value) (w : World) : World :=
  {| now := now w; rng := rng w; heap := heap w; config := config w;
     buffer := buffer w; traceBuffer := b;
     _modelCosts := _modelCosts w; tasks := tasks w; requests := requests w |}.

Definition with_modelCosts (m : Table) (w : World) : World :=
  {| now := now w; rng := rng w; heap := heap w; config := config w;
     buffer := buffer w; traceBuffer := traceBuffer w;
     _modelCosts := m; tasks := tasks w; requests := requests w |}.

Definition with_tasks (t : list Task) (w : World) : World :=
  {| now := now w; rng := rng w; heap := heap w; config := config w;
     buffer := buffer w; traceBuffer := traceBuffer w;
     _modelCosts := _modelCosts w; tasks := t; requests := requests w |}.

Definition with_requests (r : list (Endpoint * list Value)) (w : World) : World :=
  {| now := now w; rng := rng w; heap := heap w; config := config w;
     buffer := buffer w; traceBuffer := traceBuffer w;
     _modelCosts := _modelCosts w; tasks := tasks w; requests := r |}.

(** The world [ms] milliseconds later, nothing else having happened. *)
Definition later (ms : Z) (w : World) : World :=
  {| now := now w + ms; rng := rng w; heap := heap w; config := config w;
     buffer := buffer w; traceBuffer := traceBuffer w;
     _modelCosts := _modelCosts w; tasks := tasks w; requests := requests w |}.

(** A computation of the SDK or of the host program: it may change the
    world, and completes or throws. *)
Definition Run (A : Type) : Type := World -> World * Outcome A.

(** What the embedding takes from the JavaScript engine and from the program
    the SDK is linked into: the conversions of the values whose conversion
    the language leaves to their own methods or to number syntax,
    [JSON.stringify], the [hostname] of [new URL(s)] ([None] when the
    constructor throws), the identifiers [crypto.randomUUID()] hands out, the
    bodies of the program's functions (called with a [this] and arguments),
    method calls on receivers whose methods are their own, and the members
    of [Object.prototype] as values (functions, and under [__proto__] the
    prototype itself), by their names. *)
Record Host : Type := {
  HostToString : Value -> string;
  HostToNumber : Value -> float;
  JSON_stringify : Value -> Value;
  URL_hostname : string -> option string;
  randomUUID : nat -> string;
  fun_body : nat -> Value -> list Value -> Run Value;
  host_invoke : Value -> string -> list Value -> Run Value;
  Object_prototype_member : string -> Value;
}.

(** ** Traces *)

Module TraceOptions.
Record t : Type := mk {
  name : string;
  sessionId : Value;
  userId : Value;
  input : Value;
  metadata : Value;
  promptName : Value;
  promptVersion : Value;
}.
End TraceOptions.

Module TraceEndOptions.
Record t : Type := mk {
  status : TraceStatus;
  output : Value;
}.
End TraceEndOptions.

(** [this.traceBuffer.push(payload)]. *)
Definition _pushTrace (payload : Value) (w : World) : World :=
  with_traceBuffer (traceBuffer w ++ [payload]) w.

Module Trace.
Record t : Type := mk {
  id : string;
  name : string;
  sessionId : Value;
  userId : Value;
  status : TraceStatus;
  input : Value;
  output : Value;
  metadata : Value;
  promptName : Value;
  promptVersion : Value;
  startedAt : Z;
  endedAt : option Z;
  spans : list SpanRef;
}.

Definition new (uuid : string) (now : Z) (opts : TraceOptions.t) : t :=
  {| id := uuid;
     name := TraceOptions.name opts;
     sessionId := TraceOptions.sessionId opts;
     userId := TraceOptions.userId opts;
     status := running;
     input := TraceOptions.input opts;
     output := VUndefined;
     metadata := TraceOptions.metadata opts;
     promptName := TraceOptions.promptName opts;
     promptVersion := TraceOptions.promptVersion opts;
     startedAt := now;
     endedAt := None;
     spans := [] |}.

Definition with_spans (l : list SpanRef) (tr : t) : t :=
  {| id := id tr; name := name tr; sessionId := sessionId tr; userId := userId tr;
     status := status tr; input := input tr; output := output tr;
     metadata := metadata tr; promptName := promptName tr;
     promptVersion := promptVersion tr; startedAt := startedAt tr;
     endedAt := endedAt tr; spans := l |}.

(** [startSpan(opts)]: [new Span({ ...opts, parentSpanId: null })], then
    [this.spans.push(span)].  The new object takes the next free cell of the
    heap. *)
Definition startSpan (host : Host) (opts : SpanOptions.t) (tr : t) (w : World)
  : World * (t * SpanRef) :=
  let span :=
    Span.new (randomUUID host (rng w)) (now w)
      {| SpanOptions.spanType := SpanOptions.spanType opts;
         SpanOptions.name := SpanOptions.name opts;
         SpanOptions.model := SpanOptions.model opts;
         SpanOptions.provider := SpanOptions.provider opts;
         SpanOptions.input := SpanOptions.input opts;
         SpanOptions.metadata := SpanOptions.metadata opts;
         SpanOptions.parentSpanId := VNull |} in
  let ref := length (heap w) in
  (with_rng (S (rng w)) (with_heap (fun h => h ++ [span]) w),
   (with_spans (spans tr ++ [ref]) tr, ref)).

(** [this.spans.map((s) => s.toJSON())], reading each span where it lives. *)
Definition spans_toJSON (h : list Span.t) (refs : list SpanRef) : list Value :=
  omap (fun r => Span.toJSON <$> h !! r) refs.

Definition _toPayload (h : list Span.t) (tr : t) : Value :=
  VObj [ ("id", VStr (id tr));
         ("session_id", js_coalesce (sessionId tr) VNull);
         ("user_id", js_coalesce (userId tr) VNull);
         ("name", VStr (name tr));
         ("status", VStr (TraceStatus_literal (status tr)));
         ("input", js_coalesce (input tr) VNull);
         ("output", js_coalesce (output tr) VNull);
         ("metadata", js_coalesce (metadata tr) VNull);
         ("prompt_name", js_coalesce (promptName tr) VNull);
         ("prompt_version", js_coalesce (promptVersion tr) VNull);
         ("started_at", VInt (startedAt tr));
         ("ended_at", js_coalesce (optional VInt (endedAt tr)) VNull);
         ("spans", VArr (spans_toJSON h (spans tr))) ].

(** [end(opts)]. *)
Definition end_ (opts : TraceEndOptions.t) (tr : t) (w : World) : World * t :=
  let tr' :=
    {| id := id tr; name := name tr; sessionId := sessionId tr; userId := userId tr;
       status := TraceEndOptions.status opts;
       input := input tr;
       output := if TraceEndOptions.output opts is VUndefined then output tr
                 else TraceEndOptions.output opts;
       metadata := metadata tr; promptName := promptName tr;
       promptVersion := promptVersion tr; startedAt := startedAt tr;
       endedAt := Some (now w); spans := spans tr |} in
  (_pushTrace (_toPayload (heap w) tr') w, tr').
End Trace.

(** [span.end(opts)] through a reference. *)
Definition span_end (r : SpanRef) (opts : SpanEndOptions.t) (w : World) : World :=
  match heap w !! r with
  | Some s => with_heap (fun h => <[r := Span.end_ (now w) opts s]> h) w
  | None => w
  end.

(** ** Provider detection and model pricing *)

Definition PROVIDER_MAP : gmap string string :=
  list_to_map
    [ ("api.openai.com", "openai");
      ("api.anthropic.com", "anthropic");
      ("api.minimax.io", "minimax");
      ("api.minimaxi.com", "minimax");
      ("api.moonshot.ai", "kimi");
      ("generativelanguage.googleapis.com", "google") ].

Definition per_million (dollars : float) : float := (dollars / 1000000)%float.

Definition MODEL_COSTS : gmap string Rates :=
  list_to_map
    [ ("gpt-4o", {| input := per_million 2.50; output := per_million 10.00 |});
      ("gpt-4o-mini", {| input := per_million 0.15; output := per_million 0.60 |});
      ("gpt-4-turbo", {| input := per_million 10.00; output := per_million 30.00 |});
      ("claude-sonnet-4-5-20250929",
       {| input := per_million 3.00; output := per_million 15.00 |});
      ("claude-haiku-4-5-20251001",
       {| input := per_million 0.80; output := per_million 4.00 |});
      ("MiniMax-M1", {| input := per_million 0.40; output := per_million 2.20 |});
      ("MiniMax-Text-01", {| input := per_million 0.20; output := per_million 1.10 |});
      ("kimi-k2", {| input := per_million 0.60; output := per_million 2.50 |});
      ("moonshot-v1-8k", {| input := per_million 0.20; output := per_million 2.00 |}) ].

Arguments MODEL_COSTS : simpl never.
Arguments PROVIDER_MAP : simpl never.

(** ** Error events *)

Module ErrorEvent.
Record t : Type := mk {
  errorType : string;
  message : string;
  route : option string;
  stack : option string;
  httpStatus : option float;
  requestId : option string;
  userIdHash : option string;
  metadata : option (list (string * Value));
}.
End ErrorEvent.

Module TraceGenerationOptions.
Record t : Type := mk {
  name : string;
  model : Value;
  provider : Value;
  input : Value;
  sessionId : Value;
  userId : Value;
  metadata : Value;
}.
End TraceGenerationOptions.

(** [obj.key = v] on an object literal. *)
Fixpoint assign (key : string) (v : Value) (props : list (string * Value))
  : list (string * Value) :=
  match props with
  | [] => [(key, v)]
  | (k, x) :: rest =>
      if String.eqb k key then (k, v) :: rest else (k, x) :: assign key v rest
  end.

(** ** Delivery: the two buffers and their flushes *)

Definition pending (e : Endpoint) (w : World) : list Value :=
  match e with
  | IngestBatch => buffer w
  | TracesBatch => traceBuffer w
  end.

(** [this.buffer.splice(0)] and [this.traceBuffer.splice(0)]: the array is
    emptied in place. *)
Definition splice_all (e : Endpoint) (w : World) : World :=
  match e with
  | IngestBatch => with_buffer [] w
  | TracesBatch => with_traceBuffer [] w
  end.

(** A call of [_flushErrors] or [_flushTraces], up to its first [await]: it
    returns at once on an empty buffer, and otherwise suspends at
    [await this.keyReady] with the buffer untouched. *)
Definition flush_call (e : Endpoint) (w : World) : World :=
  match pending e w with
  | [] => w
  | _ :: _ => with_tasks (tasks w ++ [AwaitKey e]) w
  end.

Definition _flushErrors : World -> World := flush_call IngestBatch.
Definition _flushTraces : World -> World := flush_call TracesBatch.

(** [flush()], up to the [await Promise.all(...)] it suspends at. *)
Definition flush (w : World) : World := _flushTraces (_flushErrors w).

(** The promise the suspended flush number [i] awaits is fulfilled, and the
    flush goes on: from [await this.keyReady] it splices the buffer, builds
    the body and suspends at [await this.sign(body)]; from there it hands
    the request to [fetch] and suspends on it; from there it resolves. *)
Definition resume (i : nat) (w : World) : World :=
  match tasks w !! i with
  | Some (AwaitKey e) =>
      let items := pending e w in
      with_tasks (<[i := AwaitSign e items]> (tasks w)) (splice_all e w)
  | Some (AwaitSign e items) =>
      with_requests (requests w ++ [(e, items)])
        (with_tasks (<[i := AwaitFetch e items]> (tasks w)) w)
  | Some (AwaitFetch e items) => with_tasks (<[i := Settled]> (tasks w)) w
  | Some Settled | Some Failed | None => w
  end.

(** The promise the suspended flush number [i] awaits is rejected.
    [await this.keyReady] and [await this.sign(body)] stand outside the
    [try]: the flush is over, rejected, with the buffer untouched in the
    first case and the items it had spliced out gone in the second (a throw
    of [JSON.stringify], which runs between the splice and the call of
    [sign], is the resumption from the key followed at once by this).
    [await fetch(...)] stands inside the [try]: the rejection is caught and
    the flush resolves. *)
Definition reject (i : nat) (w : World) : World :=
  match tasks w !! i with
  | Some (AwaitKey _) | Some (AwaitSign _ _) =>
      with_tasks (<[i := Failed]> (tasks w)) w
  | Some (AwaitFetch _ _) => with_tasks (<[i := Settled]> (tasks w)) w
  | Some Settled | Some Failed | None => w
  end.

(** [if (x) ingestEvent.key = stored]. *)
Definition assign_if (x : Value) (key : string) (stored : Value)
  (props : list (string * Value)) : list (string * Value) :=
  if truthy x then assign key stored props else props.

(** The object [capture(event)] builds. *)
Definition ingest_event (event : ErrorEvent.t) (w : World) : list (string * Value) :=
  let ingestEvent :=
    [ ("timestamp", VInt (now w));
      ("source", VStr (source (config w)));
      ("environment", VStr (environment (config w)));
      ("release", VStr (release (config w)));
      ("error_type", VStr (ErrorEvent.errorType event));
      ("message", VStr (ErrorEvent.message event)) ] in
  let route := optional VStr (ErrorEvent.route event) in
  let ingestEvent := assign_if route "route_or_procedure" route ingestEvent in
  let stack := optional VStr (ErrorEvent.stack event) in
  let sliced :=
    optional (fun s => VStr (String.substring 0 8192 s)) (ErrorEvent.stack event) in
  let ingestEvent := assign_if stack "stack" sliced ingestEvent in
  let httpStatus := optional VNum (ErrorEvent.httpStatus event) in
  let ingestEvent := assign_if httpStatus "http_status" httpStatus ingestEvent in
  let requestId := optional VStr (ErrorEvent.requestId event) in
  let ingestEvent := assign_if requestId "request_id" requestId ingestEvent in
  let userIdHash := optional VStr (ErrorEvent.userIdHash event) in
  let ingestEvent := assign_if userIdHash "user_id_hash" userIdHash ingestEvent in
  let metadata := optional VObj (ErrorEvent.metadata event) in
  assign_if metadata "metadata" metadata ingestEvent.

(** [capture(event)]. *)
Definition capture (event : ErrorEvent.t) (w : World) : World :=
  let w := with_buffer (buffer w ++ [VObj (ingest_event event w)]) w in
  if Z.of_nat (length (buffer w)) >=? default 20 (maxBufferSize (config w))
  then flush w
  else w.

(** [setModelCosts(model, costs)]. *)
Definition setModelCosts (model : string) (costs : Rates) (w : World) : World :=
  with_modelCosts (store model costs (_modelCosts w)) w.

(** ** The client's tracing methods *)

Section BloopClient.
Context (host : Host).

(** [String(v)] and [Number(v)]; the cases that run a method of the value
    or parse it are the host's. *)
Definition ToString (v : Value) : string :=
  match v with
  | VUndefined => "undefined"
  | VNull => "null"
  | VBool true => "true"
  | VBool false => "false"
  | VStr s => s
  | VError name message =>
      if String.eqb name "" then message
      else if String.eqb message "" then name
      else name +:+ ": " +:+ message
  | _ => HostToString host v
  end.

Definition ToNumber (v : Value) : float :=
  match v with
  | VUndefined => PrimFloat.nan
  | VNull => 0%float
  | VBool true => 1%float
  | VBool false => 0%float
  | VNum x => x
  | _ => HostToNumber host v
  end.

(** A provider as the value the source holds. *)
Definition Provider_value (provider : Provider) : Value :=
  match provider with
  | Named name => VStr name
  | Inherited member => Object_prototype_member host member
  end.

(** [detectProvider(client)]: the whole body runs under [try], and any
    throw yields ["unknown"].  [PROVIDER_MAP] is a plain object:
    [PROVIDER_MAP[hostname]] finds an own entry or, for a host named after
    a member of [Object.prototype], that member, which is truthy and so is
    the answer. *)
Definition detectProvider (client : Value) : Provider :=
  let attempt : Outcome Provider :=
    direct ← opt_get client "baseURL";
    baseURL ← (if truthy direct then mret direct
               else options ← opt_get client "_options";
                    nested ← opt_get options "baseURL";
                    mret (js_or nested (VStr "")));
    match URL_hostname host (ToString baseURL) with
    | Some hostname =>
        mret (match PROVIDER_MAP !! hostname with
              | Some provider =>
                  if truthy (VStr provider) then Named provider else Named hostname
              | None =>
                  if inherited hostname then Inherited hostname else Named hostname
              end)
    | None => Throws (TypeError "Invalid URL")
    end in
  match attempt with
  | Returns provider => provider
  | Throws _ => Named "unknown"
  end.

(** [startTrace(opts)]. *)
Definition startTrace (opts : TraceOptions.t) (w : World) : World * Trace.t :=
  (with_rng (S (rng w)) w, Trace.new (randomUUID host (rng w)) (now w) opts).

Definition wrapOpenAI (client : Value) : Outcome Value :=
  let provider := detectProvider client in
  new_Proxy (HOpenAI provider) client.

Definition wrapAnthropic (client : Value) : Outcome Value :=
  new_Proxy HAnthropic client.

(** [v.slice(-1)]: the built-in on arrays and strings, the receiver's own
    method anywhere else. *)
Definition slice_last (v : Value) : Run Value :=
  fun w =>
    match v with
    | VArr items => (w, Returns (VArr (skipn (length items - 1) items)))
    | VStr s => (w, Returns (VStr (String.substring (String.length s - 1) 1 s)))
    | _ => host_invoke host v "slice" [VNum (-1)%float] w
    end.

(** The [input] member of the span options of [_traceOpenAICall]:
    [params.messages ? JSON.stringify(params.messages.slice(-1)) : undefined]. *)
Definition last_message (params : Value) : Run Value :=
  fun w =>
    match js_get params "messages" with
    | Throws e => (w, Throws e)
    | Returns test =>
        if truthy test then
          match js_get params "messages" with
          | Throws e => (w, Throws e)
          | Returns messages =>
              match slice_last messages w with
              | (w', Returns sliced) => (w', Returns (JSON_stringify host sliced))
              | (w', Throws e) => (w', Throws e)
              end
          end
        else (w, Returns VUndefined)
    end.

(** [this._modelCosts[model] || MODEL_COSTS[model]]. *)
Definition resolve_rates (w : World) (model : Value) : Indexed :=
  let override := index (_modelCosts w) (ToString model) in
  if found override then override
  else index {| entries := MODEL_COSTS; replaced := None |} (ToString model).

(** [let cost = 0; if (rates) { cost = inputTokens * rates.input +
    outputTokens * rates.output; }]. *)
Definition compute_cost (rates : Indexed) (inputTokens outputTokens : Value)
  : Value :=
  if found rates then
    VNum (ToNumber inputTokens * rate_of input rates +
          ToNumber outputTokens * rate_of output rates)%float
  else VNum 0%float.

(** What both traced calls do with a response, given the names of the two
    usage members and the reading of the output. *)
Definition record_success (in_key out_key : string) (read_output : Value -> Outcome Value)
  (model : Value) (trace : Trace.t) (span : SpanRef) (response : Value) : Run Value :=
  fun w =>
    let extracted : Outcome (Value * Value * Value) :=
      usage ← opt_get response "usage";
      prompt ← opt_get usage in_key;
      completion ← opt_get usage out_key;
      output ← read_output response;
      mret (js_or prompt (VNum 0%float), js_or completion (VNum 0%float), output) in
    match extracted with
    | Throws e => (w, Throws e)
    | Returns (inputTokens, outputTokens, output) =>
        let rates := resolve_rates w model in
        let cost := compute_cost rates inputTokens outputTokens in
        let w :=
          span_end span
            {| SpanEndOptions.inputTokens := inputTokens;
               SpanEndOptions.outputTokens := outputTokens;
               SpanEndOptions.cost := cost;
               SpanEndOptions.status := SpanOk;
               SpanEndOptions.errorMessage := VUndefined;
               SpanEndOptions.output := output;
               SpanEndOptions.timeToFirstTokenMs := VUndefined |} w in
        let w :=
          fst (Trace.end_ {| TraceEndOptions.status := completed;
                             TraceEndOptions.output := output |} trace w) in
        (w, Returns response)
    end.

(** The [catch (err: any)] block of both traced calls. *)
Definition record_failure (trace : Trace.t) (span : SpanRef) (err : Value) : Run Value :=
  fun w =>
    match opt_get err "message" with
    | Throws e => (w, Throws e)
    | Returns message =>
        let w :=
          span_end span
            {| SpanEndOptions.inputTokens := VUndefined;
               SpanEndOptions.outputTokens := VUndefined;
               SpanEndOptions.cost := VUndefined;
               SpanEndOptions.status := SpanError;
               SpanEndOptions.errorMessage := js_or message (VStr (ToString err));
               SpanEndOptions.output := VUndefined;
               SpanEndOptions.timeToFirstTokenMs := VUndefined |} w in
        let w :=
          fst (Trace.end_ {| TraceEndOptions.status := TraceError;
                             TraceEndOptions.output := VUndefined |} trace w) in
        (w, Throws err)
    end.

(** [try { const response = await fn(...args); ... } catch (err) { ... }]. *)
Definition try_traced (fn : list Value -> Run Value) (args : list Value)
  (on_response : Value -> Run Value) (on_error : Value -> Run Value) : Run Value :=
  fun w =>
    let attempt :=
      match fn args w with
      | (w', Returns response) => on_response response w'
      | (w', Throws err) => (w', Throws err)
      end in
    match attempt with
    | (w', Returns result) => (w', Returns result)
    | (w', Throws err) => on_error err w'
    end.

Definition blank_trace (name : string) : TraceOptions.t :=
  {| TraceOptions.name := name;
     TraceOptions.sessionId := VUndefined;
     TraceOptions.userId := VUndefined;
     TraceOptions.input := VUndefined;
     TraceOptions.metadata := VUndefined;
     TraceOptions.promptName := VUndefined;
     TraceOptions.promptVersion := VUndefined |}.

(** [_traceOpenAICall], up to its [try]: the model, the trace and the span. *)
Definition openai_open (provider : Provider) (method : string) (args : list Value)
  : Run (Value * Trace.t * SpanRef) :=
  fun w =>
    let params := js_or (nth 0 args VUndefined) (VObj []) in
    match js_get params "model" with
    | Throws e => (w, Throws e)
    | Returns named =>
        let model := js_or named (VStr "unknown") in
        let traceName := ToString (Provider_value provider) +:+ "." +:+ method in
        let '(w, trace) := startTrace (blank_trace traceName) w in
        match last_message params w with
        | (w, Throws e) => (w, Throws e)
        | (w, Returns input) =>
            let '(w, (trace, span)) :=
              Trace.startSpan host
                {| SpanOptions.spanType := generation;
                   SpanOptions.name := Some traceName;
                   SpanOptions.model := model;
                   SpanOptions.provider := Provider_value provider;
                   SpanOptions.input := input;
                   SpanOptions.metadata := VUndefined;
                   SpanOptions.parentSpanId := VUndefined |} trace w in
            (w, Returns (model, trace, span))
        end
    end.

(** [response?.choices?.[0]?.message?.content]. *)
Definition openai_output (response : Value) : Outcome Value :=
  choices ← opt_get response "choices";
  first ← opt_get choices "0";
  message ← opt_get first "message";
  opt_get message "content".

Definition _traceOpenAICall (provider : Provider) (method : string)
  (fn : list Value -> Run Value)
  (args : list Value) : Run Value :=
  fun w =>
    match openai_open provider method args w with
    | (w, Throws e) => (w, Throws e)
    | (w, Returns (model, trace, span)) =>
        try_traced fn args
          (record_success "prompt_tokens" "completion_tokens" openai_output
             model trace span)
          (record_failure trace span) w
    end.

(** [_traceAnthropicCall], up to its [try]. *)
Definition anthropic_open (args : list Value) : Run (Value * Trace.t * SpanRef) :=
  fun w =>
    let params := js_or (nth 0 args VUndefined) (VObj []) in
    match js_get params "model" with
    | Throws e => (w, Throws e)
    | Returns named =>
        let model := js_or named (VStr "unknown") in
        let '(w, trace) := startTrace (blank_trace "anthropic.messages.create") w in
        let '(w, (trace, span)) :=
          Trace.startSpan host
            {| SpanOptions.spanType := generation;
               SpanOptions.name := Some "anthropic.messages.create";
               SpanOptions.model := model;
               SpanOptions.provider := VStr "anthropic";
               SpanOptions.input := VUndefined;
               SpanOptions.metadata := VUndefined;
               SpanOptions.parentSpanId := VUndefined |} trace w in
        (w, Returns (model, trace, span))
    end.

(** [response?.content?.[0]?.text]. *)
Definition anthropic_output (response : Value) : Outcome Value :=
  content ← opt_get response "content";
  first ← opt_get content "0";
  opt_get first "text".

Definition _traceAnthropicCall (fn : list Value -> Run Value) (args : list Value)
  : Run Value :=
  fun w =>
    match anthropic_open args w with
    | (w, Throws e) => (w, Throws e)
    | (w, Returns (model, trace, span)) =>
        try_traced fn args
          (record_success "input_tokens" "output_tokens" anthropic_output
             model trace span)
          (record_failure trace span) w
    end.

(** The two traced calls, by the closure that runs them. *)
Definition traced_open (k : TracedCall) : list Value -> Run (Value * Trace.t * SpanRef) :=
  match k with
  | OpenAICall provider method => openai_open provider method
  | AnthropicCall => anthropic_open
  end.

Definition traced_call (k : TracedCall) : (list Value -> Run Value) -> list Value -> Run Value :=
  match k with
  | OpenAICall provider method => _traceOpenAICall provider method
  | AnthropicCall => _traceAnthropicCall
  end.

(** Calling a value with a [this] and arguments.  The closures of the leaf
    traps run the traced call around [fn.bind(this)]; a proxy without an
    [apply] trap forwards the call to its target. *)
Fixpoint call (f this : Value) (args : list Value) {struct f} : Run Value :=
  match f with
  | VFun n => fun_body host n this args
  | VTraced k fn target => traced_call k (call fn target) args
  | VProxy _ t => call t this args
  | _ => fun w => (w, Throws (TypeError "not a function"))
  end.

(** [traceGeneration(opts, fn)], up to its [try]. *)
Definition generation_open (opts : TraceGenerationOptions.t) (w : World)
  : World * (Trace.t * SpanRef) :=
  let '(w, trace) :=
    startTrace
      {| TraceOptions.name := TraceGenerationOptions.name opts;
         TraceOptions.sessionId := TraceGenerationOptions.sessionId opts;
         TraceOptions.userId := TraceGenerationOptions.userId opts;
         TraceOptions.input := TraceGenerationOptions.input opts;
         TraceOptions.metadata := TraceGenerationOptions.metadata opts;
         TraceOptions.promptName := VUndefined;
         TraceOptions.promptVersion := VUndefined |} w in
  Trace.startSpan host
    {| SpanOptions.spanType := generation;
       SpanOptions.name := Some (TraceGenerationOptions.name opts);
       SpanOptions.model := TraceGenerationOptions.model opts;
       SpanOptions.provider := TraceGenerationOptions.provider opts;
       SpanOptions.input := TraceGenerationOptions.input opts;
       SpanOptions.metadata := VUndefined;
       SpanOptions.parentSpanId := VUndefined |} trace w.

(** A field of the span a reference points to ([undefined] stands in for a
    dangling reference, which no run produces). *)
Definition span_field {A : Type} (field : Span.t -> A) (dangling : A) (r : SpanRef)
  (w : World) : A :=
  match heap w !! r with
  | Some s => field s
  | None => dangling
  end.

(** [err instanceof Error ? err.message : String(err)]. *)
Definition generation_error_message (err : Value) : Outcome Value :=
  if instanceof_Error err then js_get err "message" else mret (VStr (ToString err)).

(** The [catch (err)] block of [traceGeneration]. *)
Definition generation_failure (trace : Trace.t) (span : SpanRef) (err : Value) : Run Value :=
  fun w =>
    let ended : Outcome World :=
      if span_field Span.status None span w is None then
        message ← generation_error_message err;
        mret (span_end span
                {| SpanEndOptions.inputTokens := VUndefined;
                   SpanEndOptions.outputTokens := VUndefined;
                   SpanEndOptions.cost := VUndefined;
                   SpanEndOptions.status := SpanError;
                   SpanEndOptions.errorMessage := message;
                   SpanEndOptions.output := VUndefined;
                   SpanEndOptions.timeToFirstTokenMs := VUndefined |} w)
      else mret w in
    match ended with
    | Throws e => (w, Throws e)
    | Returns w =>
        (fst (Trace.end_ {| TraceEndOptions.status := TraceError;
                            TraceEndOptions.output := VUndefined |} trace w),
         Throws err)
    end.

(** [traceGeneration(opts, fn)]; the callback receives the span by
    reference. *)
Definition traceGeneration (opts : TraceGenerationOptions.t) (fn : SpanRef -> Run Value)
  : Run Value :=
  fun w =>
    let '(w, (trace, span)) := generation_open opts w in
    match fn span w with
    | (w, Returns result) =>
        let w :=
          fst (Trace.end_ {| TraceEndOptions.status := completed;
                             TraceEndOptions.output :=
                               span_field Span.output VUndefined span w |} trace w) in
        (w, Returns result)
    | (w, Throws err) => generation_failure trace span err w
    end.

End BloopClient.

(** ** Operations on a trace, and what the wire keeps *)

(** What the holder of a [Trace] can do with it and with its spans, and
    time passing in between. *)
Inductive TraceOp : Type :=
| OpStartSpan (opts : SpanOptions.t)
| OpEndSpan (r : SpanRef) (opts : SpanEndOptions.t)
| OpEnd (opts : TraceEndOptions.t)
| OpElapse (ms : N).

Definition trace_op (host : Host) (op : TraceOp) (st : Trace.t * World) : Trace.t * World :=
  match op with
  | OpStartSpan opts =>
      let '(w, (tr, _)) := Trace.startSpan host opts (fst st) (snd st) in (tr, w)
  | OpEndSpan r opts => (fst st, span_end r opts (snd st))
  | OpEnd opts =>
      let '(w, tr) := Trace.end_ opts (fst st) (snd st) in (tr, w)
  | OpElapse ms => (fst st, later (Z.of_N ms) (snd st))
  end.

Definition trace_ops (host : Host) (ops : list TraceOp) (st : Trace.t * World)
  : Trace.t * World :=
  fold_left (fun st op => trace_op host op st) ops st.

(** Every span allocated was started no later than now. *)
Definition timely (w : World) : Prop :=
  Forall (fun s => Span.startedAt s <= now w) (heap w).

(** [JSON.stringify] leaves out the members of an object whose value is
    [undefined] or a function; every other member is written. *)
Definition json_omitted (v : Value) : bool :=
  match v with
  | VUndefined => true
  | _ => is_function v
  end.

Definition wire_members (v : Value) : list (string * Value) :=
  match v with
  | VObj props | VFrozen props => filter (fun kv => json_omitted (snd kv) = false) props
  | _ => []
  end.

(** The members the classes declare optional ([?]) or fill only on [end],
    each with the key it is serialized under. *)
Inductive Serialized : Type :=
| OfSpan (s : Span.t)
| OfTrace (h : list Span.t) (tr : Trace.t).

Definition serialize (x : Serialized) : Value :=
  match x with
  | OfSpan s => Span.toJSON s
  | OfTrace h tr => Trace._toPayload h tr
  end.

Definition optional_members (x : Serialized) : list (string * Value) :=
  match x with
  | OfSpan s =>
      [ ("model", Span.model s);
        ("provider", Span.provider s);
        ("input", Span.input s);
        ("output", Span.output s);
        ("metadata", Span.metadata s);
        ("input_tokens", Span.inputTokens s);
        ("output_tokens", Span.outputTokens s);
        ("cost", Span.cost s);
        ("latency_ms", optional VInt (Span.latencyMs s));
        ("time_to_first_token_ms", Span.timeToFirstTokenMs s);
        ("status", optional (fun st => VStr (SpanStatus_literal st)) (Span.status s));
        ("error_message", Span.errorMessage s) ]
  | OfTrace _ tr =>
      [ ("session_id", Trace.sessionId tr);
        ("user_id", Trace.userId tr);
        ("input", Trace.input tr);
        ("output", Trace.output tr);
        ("metadata", Trace.metadata tr);
        ("prompt_name", Trace.promptName tr);
        ("prompt_version", Trace.promptVersion tr);
        ("ended_at", optional VInt (Trace.endedAt tr)) ]
  end.

Definition has_key (key : string) (props : list (string * Value)) : bool :=
  existsb (fun kv => String.eqb (fst kv) key) props.

(** The keys at which a trap of the SDK answers with a proxy or a closure
    of its own, and so may throw. *)
Definition proxied_key (key : string) : bool :=
  String.eqb key "chat" || String.eqb key "embeddings" ||
  String.eqb key "completions" || String.eqb key "messages" ||
  String.eqb key "create".

(** The usage members and the output each traced call reads. *)
Definition input_key (k : TracedCall) : string :=
  match k with
  | OpenAICall _ _ => "prompt_tokens"
  | AnthropicCall => "input_tokens"
  end.

Definition output_key (k : TracedCall) : string :=
  match k with
  | OpenAICall _ _ => "completion_tokens"
  | AnthropicCall => "output_tokens"
  end.

Definition output_reader (k : TracedCall) : Value -> Outcome Value :=
  match k with
  | OpenAICall _ _ => openai_output
  | AnthropicCall => anthropic_output
  end.

(** ** A sample program

    A host whose function 0 answers a chat completion after 120 ms, whose
    functions 1 and 2 reject with an [Error] (the second with an empty
    message), and whose function 3 returns its [this]; and a client that
    has captured and traced nothing yet. *)

Definition sample_response : Value :=
  VObj [ ("choices", VArr [VObj [("message", VObj [("content", VStr "Hi!")])]]);
         ("usage", VObj [ ("prompt_tokens", VNum 100%float);
                          ("completion_tokens", VNum 50%float) ]) ].

Definition sample_host : Host :=
  {| HostToString := fun v =>
       if is_function v then "function () { [native code] }" else "[object Object]";
     HostToNumber := fun _ => PrimFloat.nan;
     JSON_stringify := fun _ => VStr "[{}]";
     URL_hostname := fun s =>
       if String.eqb s "https://api.openai.com/v1" then Some "api.openai.com"
       else if String.eqb s "https://constructor/v1" then Some "constructor"
       else None;
     randomUUID := fun n => String (Ascii.ascii_of_nat (97 + n)) "-uuid";
     fun_body := fun n this args w =>
       match n with
       | 0%nat => (later 120 w, Returns sample_response)
       | 1%nat => (later 30 w, Throws (VError "Error" "rate limited"))
       | 2%nat => (later 30 w, Throws (VError "Error" ""))
       | 3%nat => (w, Returns this)
       | _ => (w, Returns VUndefined)
       end;
     host_invoke := fun _ _ _ w => (w, Throws (TypeError "not a function"));
     Object_prototype_member := fun member =>
       if String.eqb member "__proto__" then VObj []
       else if inherited member then VFun 100
       else VUndefined |}.

Definition sample_world : World :=
  {| now := 1700000000000; rng := 0; heap := [];
     config := {| source := "api"; environment := "test"; release := "1.0.0";
                  maxBufferSize := Some 20 |};
     buffer := []; traceBuffer := [];
     _modelCosts := {| entries := ∅; replaced := None |};
     tasks := []; requests := [] |}.

Definition sample_request : Value :=
  VObj [ ("model", VStr "gpt-4o");
         ("messages", VArr [VObj [("role", VStr "user"); ("content", VStr "Hello")]]) ].

Definition nonempty (o : option string) : bool :=
  match o with
  | Some s => negb (String.eqb s "")
  | None => false
  end.

Definition nonzero (o : option float) : bool :=
  match o with
  | Some x => negb (PrimFloat.is_zero x || PrimFloat.is_nan x)
  | None => false
  end.

(** The scenario of the specification: a trace, a generation span for
    "gpt-4o", and 250 ms later an [end] with token counts and no cost. *)
Definition sample_trace : Trace.t :=
  Trace.new "t-uuid" 1700000000000
    (TraceOptions.mk "t" VUndefined VUndefined VUndefined VUndefined VUndefined VUndefined).

Definition sample_session : list TraceOp :=
  [ OpStartSpan {| SpanOptions.spanType := generation;
                   SpanOptions.name := None;
                   SpanOptions.model := VStr "gpt-4o";
                   SpanOptions.provider := VUndefined;
                   SpanOptions.input := VUndefined;
                   SpanOptions.metadata := VUndefined;
                   SpanOptions.parentSpanId := VUndefined |};
    OpElapse 250 ].

Definition sample_end : SpanEndOptions.t :=
  {| SpanEndOptions.inputTokens := VNum 100%float;
     SpanEndOptions.outputTokens := VNum 50%float;
     SpanEndOptions.cost := VUndefined;
     SpanEndOptions.status := SpanOk;
     SpanEndOptions.errorMessage := VUndefined;
     SpanEndOptions.output := VUndefined;
     SpanEndOptions.timeToFirstTokenMs := VUndefined |}.

(** ** Reading through a wrapper *)

(** [v.k1.k2...]. *)
Fixpoint read_path (v : Value) (path : list string) : Outcome Value :=
  match path with
  | [] => Returns v
  | key :: rest => js_get v key ≫= fun v' => read_path v' rest
  end.









(** A callback that ends its span with an output and returns. *)
Definition sample_callback (span : SpanRef) : Run Value :=
  fun w =>
    (span_end span
       {| SpanEndOptions.inputTokens := VNum 10%float;
          SpanEndOptions.outputTokens := VNum 5%float;
          SpanEndOptions.cost := VNum 0.001%float;
          SpanEndOptions.status := SpanOk;
          SpanEndOptions.errorMessage := VUndefined;
          SpanEndOptions.output := VStr "Hi!";
          SpanEndOptions.timeToFirstTokenMs := VUndefined |} (later 40 w),
     Returns (VStr "Hi!")).

Definition sample_generation : TraceGenerationOptions.t :=
  {| TraceGenerationOptions.name := "quick-gen";
     TraceGenerationOptions.model := VStr "gpt-4o";
     TraceGenerationOptions.provider := VStr "openai";
     TraceGenerationOptions.input := VStr "Hello";
     TraceGenerationOptions.sessionId := VUndefined;
     TraceGenerationOptions.userId := VUndefined;
     TraceGenerationOptions.metadata := VUndefined |}.

(** An OpenAI-shaped client with members the SDK knows nothing about: a
    version string beside [completions], and a method that returns its
    [this]. *)
Definition sample_client : Value :=
  VObj [ ("baseURL", VStr "https://api.openai.com/v1");
         ("chat", VObj [ ("completions", VObj [("create", VFun 0)]);
                         ("version", VStr "v1") ]);
         ("whoami", VFun 3) ].

Definition sample_wrapped : Value :=
  VProxy (HOpenAI "openai") sample_client.

(** ** Schedules of the delivery pipeline

    What can happen to the client between two turns of the event loop: an
    error is captured, an ended trace pushes its payload, [flush()] is
    called (by the timer, by [close()] or by the program), or a suspended
    flush is resumed, the promise it awaits being fulfilled.  Rejections
    come with [Turn], further down. *)
Inductive Step : Type :=
| DoCapture (event : ErrorEvent.t)
| DoPushTrace (payload : Value)
| DoFlush
| DoResume (i : nat).

Definition step (s : Step) (w : World) : World :=
  match s with
  | DoCapture event => capture event w
  | DoPushTrace payload => _pushTrace payload w
  | DoFlush => flush w
  | DoResume i => resume i w
  end.

Definition run (steps : list Step) (w : World) : World :=
  fold_left (fun w s => step s w) steps w.

Definition same_endpoint (e e' : Endpoint) : bool :=
  match e, e' with
  | IngestBatch, IngestBatch | TracesBatch, TracesBatch => true
  | _, _ => false
  end.

(** The items a flush has spliced out and not yet handed to [fetch]. *)
Definition task_items (e : Endpoint) (t : Task) : list Value :=
  match t with
  | AwaitSign e' items => if same_endpoint e e' then items else []
  | _ => []
  end.

Definition in_flight (e : Endpoint) (w : World) : list Value :=
  flat_map (task_items e) (tasks w).

Definition request_items (e : Endpoint) (r : Endpoint * list Value) : list Value :=
  if same_endpoint e (fst r) then snd r else [].

(** The items of all the batches handed to [fetch] so far. *)
Definition sent (e : Endpoint) (w : World) : list Value :=
  flat_map (request_items e) (requests w).

Definition accounted (e : Endpoint) (w : World) : list Value :=
  sent e w ++ in_flight e w ++ pending e w.

(** The items a schedule puts into the buffer of [e]. *)
Definition enqueues (e : Endpoint) (s : Step) (w : World) : list Value :=
  match s, e with
  | DoCapture event, IngestBatch => [VObj (ingest_event event w)]
  | DoPushTrace payload, TracesBatch => [payload]
  | _, _ => []
  end.

Fixpoint enqueued (e : Endpoint) (steps : list Step) (w : World) : list Value :=
  match steps with
  | [] => []
  | s :: rest => enqueues e s w ++ enqueued e rest (step s w)
  end.

Definition sample_error (message : string) : ErrorEvent.t :=
  {| ErrorEvent.errorType := "ValidationError";
     ErrorEvent.message := message;
     ErrorEvent.route := Some "POST /api/users";
     ErrorEvent.stack := None;
     ErrorEvent.httpStatus := Some 422%float;
     ErrorEvent.requestId := None;
     ErrorEvent.userIdHash := None;
     ErrorEvent.metadata := None |}.

(** A span that has been started and not ended. *)
Definition sample_span : Span.t :=
  Span.new "a-uuid" 1700000000000
    {| SpanOptions.spanType := generation;
       SpanOptions.name := None;
       SpanOptions.model := VStr "gpt-4o";
       SpanOptions.provider := VUndefined;
       SpanOptions.input := VUndefined;
       SpanOptions.metadata := VUndefined;
       SpanOptions.parentSpanId := VUndefined |}.

(** What [chat.completions.create] reads as through the wrapper. *)
Definition sample_create : Value :=
  VTraced (OpenAICall "openai" "chat.completions.create")
    (VFun 0) (VObj [("create", VFun 0)]).

(** ** More about delivery *)

(** The size at which [capture] starts a flush:
    [this.config.maxBufferSize ?? 20]. *)
Definition threshold (w : World) : Z := default 20 (maxBufferSize (config w)).

(** Steps that put nothing into a buffer. *)
Definition quiet (s : Step) : bool :=
  match s with
  | DoFlush | DoResume _ => true
  | DoCapture _ | DoPushTrace _ => false
  end.

(** Every suspended flush among the first [n] is resumed until it has
    settled: past the key, past the signature, past the request. *)
Definition settle (n : nat) : list Step :=
  flat_map (fun i => [DoResume i; DoResume i; DoResume i]) (seq 0 n).

(** A flush that has handed its request to [fetch]. *)
Definition requested (t : Task) : bool :=
  match t with
  | AwaitFetch _ _ | Settled => true
  | AwaitKey _ | AwaitSign _ _ | Failed => false
  end.

(** A flush that is over. *)
Definition over (t : Task) : bool :=
  match t with
  | Settled | Failed => true
  | _ => false
  end.

(** What can happen in a turn of the event loop when promises may also be
    rejected: a step of the client, or the rejection of the promise a
    suspended flush awaits. *)
Inductive Turn : Type :=
| Does (s : Step)
| Rejects (i : nat).

Definition turn (t : Turn) (w : World) : World :=
  match t with
  | Does s => step s w
  | Rejects i => reject i w
  end.

Definition play (turns : list Turn) (w : World) : World :=
  fold_left (fun w t => turn t w) turns w.

(** The first [n] flushes are taken to their end one after the other: a
    flush [fulfilled] says so of has every promise it awaits fulfilled, and
    any other has the promise it is suspended on rejected. *)
Definition drive (fulfilled : nat -> bool) (n : nat) : list Turn :=
  flat_map (fun i => if fulfilled i
                     then [Does (DoResume i); Does (DoResume i); Does (DoResume i)]
                     else [Rejects i])
    (seq 0 n).

(** [batch] is a run of consecutive items of [all], in their order. *)
Definition run_of (batch all : list Value) : Prop :=
  exists before after, all = before ++ batch ++ after.

#[global] Instance Endpoint_eq_dec : EqDecision Endpoint.
Proof. solve_decision. Defined.

(** The batches of [e] are taken in order: what is still buffered is the
    end of [all], and every batch a flush holds or has sent is a run of
    consecutive items of [all]. *)
Definition in_order (e : Endpoint) (all : list Value) (w : World) : Prop :=
  (exists before, all = before ++ pending e w) /\
  (forall items, AwaitSign e items ∈ tasks w -> run_of items all) /\
  (forall items, (e, items) ∈ requests w -> run_of items all).

(** The operations that end the trace. *)
Definition is_end (op : TraceOp) : bool :=
  match op with
  | OpEnd _ => true
  | _ => false
  end.

(** ** The signature of a request *)

(** The digit [Number.prototype.toString] writes for [d] in radix 16. *)
Definition hex_digit (d : N) : string :=
  String.substring (N.to_nat d) 1 "0123456789abcdef".

Fixpoint toString16_digits (fuel : nat) (n : N) : string :=
  match fuel with
  | O => ""
  | S fuel =>
      (if (n <? 16)%N then "" else toString16_digits fuel (n / 16)%N)
      +:+ hex_digit (n mod 16)%N
  end.

(** [n.toString(16)] on a non-negative integer; it has no more digits than
    [n] has bits. *)
Definition toString16 (n : N) : string :=
  toString16_digits (S (N.to_nat (N.log2 n))) n.

Fixpoint repeat_string (fill : string) (k : nat) : string :=
  match k with
  | O => ""
  | S k => fill +:+ repeat_string fill k
  end.

(** [s.padStart(n, fill)]: [fill], repeated and cut to the length [s] lacks,
    in front of [s]. *)
Definition padStart (n : nat) (fill s : string) : string :=
  String.substring 0 (n - String.length s)
    (repeat_string fill (n - String.length s)) +:+ s.

(** What [sign] returns, given the bytes [crypto.subtle.sign] produced:
    [Array.from(new Uint8Array(signature))
       .map((b) => b.toString(16).padStart(2, "0")).join("")]. *)
Definition hex_of_signature (signature : list Byte.byte) : string :=
  String.concat ""
    (map (fun b => padStart 2 "0" (toString16 (Byte.to_N b))) signature).

(** Reading a signature back, as whoever verifies the header does: two
    lower-case hexadecimal digits a byte. *)
Definition digit_value (c : Ascii.ascii) : option N :=
  N.of_nat <$> String.index 0 (String c "") "0123456789abcdef".

Fixpoint bytes_of_hex (s : string) : option (list Byte.byte) :=
  match s with
  | "" => Some []
  | String a (String b rest) =>
      hi ← digit_value a;
      lo ← digit_value b;
      byte ← Byte.of_N (16 * hi + lo)%N;
      bytes ← bytes_of_hex rest;
      Some (byte :: bytes)
  | String _ "" => None
  end.

(** * Properties *)

(** ** Spans and traces *)

Lemma span_end_lookup (r : SpanRef) (opts : SpanEndOptions.t) (w : World) (s : Span.t) :
  heap w !! r = Some s ->
  heap (span_end r opts w) !! r = Some (Span.end_ (now w) opts s).
Proof.
  intros Hs. unfold span_end. rewrite Hs. cbn.
  apply list_lookup_insert_eq. by eapply lookup_lt_Some.
Qed.

Lemma span_end_frame (r : SpanRef) (opts : SpanEndOptions.t) (w : World) :
  now (span_end r opts w) = now w /\
  traceBuffer (span_end r opts w) = traceBuffer w /\
  buffer (span_end r opts w) = buffer w /\
  _modelCosts (span_end r opts w) = _modelCosts w /\
  length (heap (span_end r opts w)) = length (heap w).
Proof.
  unfold span_end. destruct (heap w !! r); cbn; repeat split; try done.
  by rewrite length_insert.
Qed.

Lemma Span_end_fields (now : Z) (opts : SpanEndOptions.t) (s : Span.t) :
  Span.latencyMs (Span.end_ now opts s) = Some (now - Span.startedAt s) /\
  Span.startedAt (Span.end_ now opts s) = Span.startedAt s /\
  Span.status (Span.end_ now opts s) = Some (SpanEndOptions.status opts) /\
  Span.inputTokens (Span.end_ now opts s) = SpanEndOptions.inputTokens opts /\
  Span.outputTokens (Span.end_ now opts s) = SpanEndOptions.outputTokens opts /\
  Span.cost (Span.end_ now opts s) = SpanEndOptions.cost opts /\
  Span.errorMessage (Span.end_ now opts s) = SpanEndOptions.errorMessage opts /\
  Span.output (Span.end_ now opts s) = SpanEndOptions.output opts /\
  Span.timeToFirstTokenMs (Span.end_ now opts s) = SpanEndOptions.timeToFirstTokenMs opts.
Proof. by cbn. Qed.

Lemma startSpan_spec (host : Host) (opts : SpanOptions.t) (tr : Trace.t) (w : World) :
  exists s,
    Trace.startSpan host opts tr w =
      (with_rng (S (rng w)) (with_heap (fun h => h ++ [s]) w),
       (Trace.with_spans (Trace.spans tr ++ [length (heap w)]) tr, length (heap w))) /\
    Span.parentSpanId s = VNull /\
    Span.startedAt s = now w /\
    Span.status s = None /\
    Span.output s = VUndefined.
Proof. eexists. split; [reflexivity|]. by cbn. Qed.

Lemma trace_ops_cons (host : Host) (op : TraceOp) (ops : list TraceOp)
  (st : Trace.t * World) :
  trace_ops host (op :: ops) st = trace_ops host ops (trace_op host op st).
Proof. reflexivity. Qed.

(** The clock never runs backwards under the operations, and a span starts
    at the time it is created: so every span started in the past stays so. *)
Lemma trace_op_timely (host : Host) (op : TraceOp) (st : Trace.t * World) :
  timely (snd st) -> timely (snd (trace_op host op st)).
Proof.
  destruct st as [tr w]. unfold timely. cbn [snd]. intros Hw.
  destruct op as [opts|r opts|opts|ms]; cbn [trace_op fst snd].
  - destruct (startSpan_spec host opts tr w) as (s & -> & _ & Hstart & _).
    cbn. apply Forall_app. split; [done|]. apply Forall_singleton. lia.
  - unfold span_end. destruct (heap w !! r) as [s|] eqn:Hs; [|done].
    cbn. apply Forall_insert; [done|]. cbn.
    by eapply (Forall_lookup_1 _ _ _ _ Hw).
  - done.
  - cbn. eapply Forall_impl; [exact Hw|]. cbn. intros s Hs. lia.
Qed.

Lemma trace_ops_timely (host : Host) (ops : list TraceOp) (st : Trace.t * World) :
  timely (snd st) -> timely (snd (trace_ops host ops st)).
Proof.
  revert st. induction ops as [|op ops IH]; intros st Hst; [done|].
  rewrite trace_ops_cons. by apply IH, trace_op_timely.
Qed.

(** C7, in the form that holds of the code. A span ended through
    [Span.end] has [latencyMs] equal to the reading of the clock at the end
    minus its [startedAt], and holds exactly the metrics of the options: the
    token counts, cost, error message, output and time to first token are
    copied, so a cost the caller left out stays [undefined].  The latency is
    not negative when the clock reads no earlier at the end than it did at
    the start: on a client that starts with no span and starts spans, ends
    them, ends the trace and lets time pass, in any order, it never is. *)
Theorem Span_end_records_latency_and_given_metrics
  (r : SpanRef) (opts : SpanEndOptions.t) (w : World) (s : Span.t) :
  heap w !! r = Some s ->
  exists s',
    heap (span_end r opts w) !! r = Some s' /\
    Span.latencyMs s' = Some (now w - Span.startedAt s) /\
    (Span.startedAt s <= now w -> 0 <= now w - Span.startedAt s) /\
    (forall host ops tr w0,
       heap w0 = [] -> w = snd (trace_ops host ops (tr, w0)) ->
       0 <= now w - Span.startedAt s) /\
    Span.status s' = Some (SpanEndOptions.status opts) /\
    Span.inputTokens s' = SpanEndOptions.inputTokens opts /\
    Span.outputTokens s' = SpanEndOptions.outputTokens opts /\
    Span.cost s' = SpanEndOptions.cost opts /\
    Span.errorMessage s' = SpanEndOptions.errorMessage opts /\
    Span.output s' = SpanEndOptions.output opts /\
    Span.timeToFirstTokenMs s' = SpanEndOptions.timeToFirstTokenMs opts /\
    (SpanEndOptions.cost opts = VUndefined -> Span.cost s' = VUndefined).
Proof.
  intros Hs. exists (Span.end_ (now w) opts s).
  split; [by apply span_end_lookup|].
  destruct (Span_end_fields (now w) opts s)
    as (Hl & _ & Hst & Hi & Ho & Hc & He & Hout & Ht).
  split; [done|]. split; [lia|]. split; [|by repeat split].
  intros host ops tr w0 Hfresh Hw.
  assert (timely w) as Htimely.
  { rewrite Hw. apply trace_ops_timely. unfold timely. cbn. rewrite Hfresh. constructor. }
  pose proof (Forall_lookup_1 _ _ _ _ Htimely Hs) as Hstart. cbn in Hstart. lia.
Qed.

Lemma trace_op_spans (host : Host) (op : TraceOp) (st : Trace.t * World) :
  exists added,
    Trace.spans (fst (trace_op host op st)) = Trace.spans (fst st) ++ added /\
    (length (heap (snd st)) <= length (heap (snd (trace_op host op st))))%nat.
Proof.
  destruct st as [tr w], op as [opts|r opts|opts|ms]; cbn [trace_op fst snd].
  - destruct (startSpan_spec host opts tr w) as (s & -> & _).
    exists [length (heap w)]. split; [done|]. cbn. rewrite length_app. lia.
  - exists []. rewrite app_nil_r. split; [done|].
    by destruct (span_end_frame r opts w) as (_ & _ & _ & _ & ->).
  - exists []. rewrite app_nil_r. by split.
  - exists []. rewrite app_nil_r. by split.
Qed.

Lemma trace_ops_spans (host : Host) (ops : list TraceOp) (st : Trace.t * World) :
  exists added,
    Trace.spans (fst (trace_ops host ops st)) = Trace.spans (fst st) ++ added /\
    (length (heap (snd st)) <= length (heap (snd (trace_ops host ops st))))%nat.
Proof.
  revert st. induction ops as [|op ops IH]; intros st.
  - exists []. rewrite app_nil_r. by split.
  - rewrite trace_ops_cons.
    destruct (IH (trace_op host op st)) as (a2 & Ha2 & Hl2).
    destruct (trace_op_spans host op st) as (a1 & Ha1 & Hl1).
    exists (a1 ++ a2). rewrite Ha2, Ha1, <- app_assoc. split; [done|lia].
Qed.

(** C8. [Trace.startSpan] allocates a span whose [parentSpanId] is [null]
    and puts it at the end of the trace's span sequence; and whatever is
    done afterwards with the trace and its spans ([startSpan], [Span.end],
    [Trace.end], in any number and order), the sequence keeps every earlier
    entry in its place and only grows at its end, and every entry still
    refers to a span. *)
Theorem startSpan_appends_a_root_span
  (host : Host) (opts : SpanOptions.t) (tr : Trace.t) (w : World) (ops : list TraceOp) :
  let started := Trace.startSpan host opts tr w in
  let w' := fst started in
  let tr' := fst (snd started) in
  let r := snd (snd started) in
  Trace.spans tr' = Trace.spans tr ++ [r] /\
  (exists s, heap w' = heap w ++ [s] /\ heap w' !! r = Some s /\
             Span.parentSpanId s = VNull) /\
  (exists added,
     Trace.spans (fst (trace_ops host ops (tr', w'))) = Trace.spans tr' ++ added /\
     (length (heap w') <= length (heap (snd (trace_ops host ops (tr', w')))))%nat).
Proof.
  cbn zeta. destruct (startSpan_spec host opts tr w) as (s & -> & Hp & _).
  cbn [fst snd]. split; [done|]. split.
  - exists s. cbn. split; [done|]. split; [|done].
    by rewrite lookup_app_r, Nat.sub_diag.
  - apply (trace_ops_spans host ops (_, _)).
Qed.

(** ** Serialization *)

Lemma coalesce_absent : js_coalesce VUndefined VNull = VNull.
Proof. reflexivity. Qed.

Lemma coalesce_never_undefined (v : Value) : js_coalesce v VNull <> VUndefined.
Proof. by destruct v. Qed.

(** C6. In the serialized form of a span ([Span.toJSON]) and of a trace
    ([Trace._toPayload]), every optional member that is absent
    ([undefined]) appears under its key with the value [null], and
    [JSON.stringify] writes that member: it is never left out. *)
Theorem absent_optional_member_serializes_as_null
  (x : Serialized) (key : string) (field : Value) :
  (key, field) ∈ optional_members x ->
  field = VUndefined ->
  Reflect_get (serialize x) key = Returns VNull /\
  (key, VNull) ∈ wire_members (serialize x).
Proof.
  intros Hin Habsent.
  destruct x as [s|h tr]; cbn [optional_members] in Hin;
    repeat (apply elem_of_cons in Hin as [Hin|Hin]);
    try (by apply elem_of_nil in Hin);
    injection Hin as -> ->;
    (split;
     [ cbn; rewrite Habsent; reflexivity
     | apply list_elem_of_filter; split; [reflexivity|];
       cbn; rewrite Habsent; cbn; set_solver ]).
Qed.

(** ** Error capture *)

Lemma has_key_assign (key k : string) (v : Value) (props : list (string * Value)) :
  has_key key (assign k v props) = String.eqb k key || has_key key props.
Proof.
  unfold has_key. induction props as [|[k' x] rest IH]; cbn.
  - by rewrite orb_false_r.
  - destruct (String.eqb_spec k' k) as [->|Hne]; cbn.
    + by destruct (String.eqb k key).
    + rewrite IH. destruct (String.eqb k' key), (String.eqb k key); done.
Qed.

Lemma has_key_assign_if (key k : string) (x v : Value) (props : list (string * Value)) :
  has_key key (assign_if x k v props) = (truthy x && String.eqb k key) || has_key key props.
Proof.
  unfold assign_if. destruct (truthy x); cbn; [apply has_key_assign|done].
Qed.

Lemma own_property_assign (key k : string) (v : Value) (props : list (string * Value)) :
  own_property (assign k v props) key =
    if String.eqb k key then v else own_property props key.
Proof.
  induction props as [|[k' x] rest IH]; cbn.
  - done.
  - destruct (String.eqb_spec k' k) as [->|Hne]; cbn.
    + by destruct (String.eqb k key).
    + rewrite IH. destruct (String.eqb_spec k' key) as [->|Hne'];
        destruct (String.eqb_spec k key) as [->|Hne'']; done.
Qed.

Lemma own_property_assign_if (key k : string) (x v : Value) (props : list (string * Value)) :
  own_property (assign_if x k v props) key =
    if truthy x && String.eqb k key then v else own_property props key.
Proof.
  unfold assign_if. destruct (truthy x); cbn; [apply own_property_assign|done].
Qed.

Lemma flush_call_buffers (e e' : Endpoint) (w : World) :
  pending e' (flush_call e w) = pending e' w.
Proof. unfold flush_call. by destruct (pending e w), e'. Qed.

Lemma flush_buffer (w : World) : buffer (flush w) = buffer w.
Proof.
  unfold flush, _flushTraces, _flushErrors.
  apply (eq_trans (flush_call_buffers TracesBatch IngestBatch _)).
  apply (flush_call_buffers IngestBatch IngestBatch).
Qed.

Lemma capture_buffer (event : ErrorEvent.t) (w : World) :
  buffer (capture event w) = buffer w ++ [VObj (ingest_event event w)].
Proof.
  unfold capture. cbn zeta.
  match goal with |- context [if ?c then _ else _] => destruct c end;
    [by rewrite flush_buffer|done].
Qed.

(** C10. [capture] appends one ingest event to the buffer, and each
    optional member is a key of that event exactly when the value given for
    it is truthy: a non-empty string for [route], [stack], [requestId] and
    [userIdHash], a number other than 0 and NaN for [httpStatus], any object
    for [metadata].  A member given as 0 or as the empty string is therefore
    not a key of the event at all; a member that is kept holds the value
    given ([stack] cut to its first 8192 code units). *)
Theorem capture_keeps_only_truthy_optional_members (event : ErrorEvent.t) (w : World) :
  let props := ingest_event event w in
  buffer (capture event w) = buffer w ++ [VObj props] /\
  has_key "route_or_procedure" props = nonempty (ErrorEvent.route event) /\
  has_key "stack" props = nonempty (ErrorEvent.stack event) /\
  has_key "http_status" props = nonzero (ErrorEvent.httpStatus event) /\
  has_key "request_id" props = nonempty (ErrorEvent.requestId event) /\
  has_key "user_id_hash" props = nonempty (ErrorEvent.userIdHash event) /\
  has_key "metadata" props = bool_decide (is_Some (ErrorEvent.metadata event)) /\
  own_property props "route_or_procedure" =
    (if nonempty (ErrorEvent.route event)
     then optional VStr (ErrorEvent.route event) else VUndefined) /\
  own_property props "stack" =
    (if nonempty (ErrorEvent.stack event)
     then optional (fun s => VStr (String.substring 0 8192 s)) (ErrorEvent.stack event)
     else VUndefined) /\
  own_property props "http_status" =
    (if nonzero (ErrorEvent.httpStatus event)
     then optional VNum (ErrorEvent.httpStatus event) else VUndefined) /\
  own_property props "request_id" =
    (if nonempty (ErrorEvent.requestId event)
     then optional VStr (ErrorEvent.requestId event) else VUndefined) /\
  own_property props "user_id_hash" =
    (if nonempty (ErrorEvent.userIdHash event)
     then optional VStr (ErrorEvent.userIdHash event) else VUndefined) /\
  own_property props "metadata" = optional VObj (ErrorEvent.metadata event).
Proof.
  cbn zeta. split; [apply capture_buffer|].
  unfold ingest_event. cbn zeta.
  rewrite !has_key_assign_if, !own_property_assign_if.
  destruct event as [ty msg [route|] [stack|] [http|] [req|] [uid|] [meta|]];
    cbn [ErrorEvent.route ErrorEvent.stack ErrorEvent.httpStatus ErrorEvent.requestId
         ErrorEvent.userIdHash ErrorEvent.metadata optional nonempty nonzero truthy];
    cbn [has_key existsb fst snd own_property String.eqb Ascii.eqb Bool.eqb andb orb];
    rewrite ?andb_false_r, ?andb_true_r, ?orb_false_r;
    repeat split; try reflexivity;
    repeat match goal with
           | |- context [negb ?b] => destruct b; cbn
           end; reflexivity.
Qed.

(** ** Property reads that cannot throw *)

Lemma trap_get_returns (h : Handler) (target : Value) (key : string) (val : Value) :
  proxied_key key = false -> exists r, trap_get h target key val = Returns r.
Proof.
  unfold proxied_key. intros Hk.
  repeat (apply orb_false_iff in Hk as [Hk ?]).
  destruct h; cbn; rewrite ?Hk;
    repeat match goal with
           | H : String.eqb key _ = false |- _ => rewrite H; clear H
           | |- context [if ?c then _ else _] => destruct c
           end; eauto.
Qed.

(** [hands_on] says of each trap what its body does: where it holds the
    trap answers with the value it read, and where it does not the answer
    is a proxy of that value or a closure around it, made for the
    occasion. *)
Lemma trap_get_hands_on (h : Handler) (target : Value) (key : string) (val : Value) :
  hands_on h key val = true -> trap_get h target key val = Returns val.
Proof.
  destruct h; cbn;
    repeat match goal with
           | |- context [String.eqb key ?l] => destruct (String.eqb key l); cbn
           | |- context [is_function val] => destruct (is_function val); cbn
           end; done.
Qed.

Lemma trap_get_answers_anew (h : Handler) (target : Value) (key : string) (val r : Value) :
  hands_on h key val = false -> trap_get h target key val = Returns r ->
  (exists h', r = VProxy h' val) \/ (exists k, r = VTraced k val target).
Proof.
  destruct h; cbn; unfold new_Proxy;
    repeat match goal with
           | |- context [String.eqb key ?l] => destruct (String.eqb key l); cbn
           | |- context [is_function val] => destruct (is_function val); cbn
           | |- context [is_object val] => destruct (is_object val); cbn
           end; try done; intros _ [= <-]; eauto.
Qed.

Lemma plain_key_is_handed_on (h : Handler) (key : string) (val : Value) :
  proxied_key key = false -> hands_on h key val = true.
Proof.
  unfold proxied_key. intros Hk.
  repeat (apply orb_false_iff in Hk as [Hk ?]).
  destruct h; cbn; rewrite ?Hk;
    repeat match goal with
           | H : String.eqb key _ = false |- _ => rewrite H; clear H
           end; done.
Qed.

Lemma Reflect_get_returns (v : Value) (key : string) :
  proxied_key key = false -> exists r, Reflect_get v key = Returns r.
Proof.
  intros Hk. induction v; cbn [Reflect_get];
    repeat match goal with
           | |- context [if ?c then _ else _] => destruct c
           | |- context [match ?o with Some _ => _ | None => _ end] => destruct o
           end; eauto.
  destruct IHv as [val ->]. cbn [mbind Outcome_bind].
  destruct (trap_get_returns h v key val Hk) as [r ->]. cbn [mbind Outcome_bind].
  rewrite (plain_key_is_handed_on h key val Hk), andb_false_r. eauto.
Qed.

Lemma opt_get_returns (v : Value) (key : string) :
  proxied_key key = false -> exists r, opt_get v key = Returns r.
Proof.
  intros Hk. unfold opt_get. destruct (nullish v); [eauto|by apply Reflect_get_returns].
Qed.

Lemma openai_output_returns (response : Value) :
  exists r, openai_output response = Returns r.
Proof.
  unfold openai_output.
  destruct (opt_get_returns response "choices" eq_refl) as [a ->]; cbn.
  destruct (opt_get_returns a "0" eq_refl) as [b ->]; cbn.
  destruct (opt_get_returns b "message" eq_refl) as [c ->]; cbn.
  apply opt_get_returns; reflexivity.
Qed.

Lemma anthropic_output_returns (response : Value) :
  exists r, anthropic_output response = Returns r.
Proof.
  unfold anthropic_output.
  destruct (opt_get_returns response "content" eq_refl) as [a ->]; cbn.
  destruct (opt_get_returns a "0" eq_refl) as [b ->]; cbn.
  apply opt_get_returns; reflexivity.
Qed.

(** ** What the traced calls record *)

Lemma Trace_end_frame (opts : TraceEndOptions.t) (tr : Trace.t) (w : World) :
  heap (fst (Trace.end_ opts tr w)) = heap w /\
  traceBuffer (fst (Trace.end_ opts tr w)) =
    traceBuffer w ++ [Trace._toPayload (heap w) (snd (Trace.end_ opts tr w))] /\
  Trace.status (snd (Trace.end_ opts tr w)) = TraceEndOptions.status opts /\
  Trace.spans (snd (Trace.end_ opts tr w)) = Trace.spans tr /\
  Trace.output (snd (Trace.end_ opts tr w)) =
    (if TraceEndOptions.output opts is VUndefined then Trace.output tr
     else TraceEndOptions.output opts).
Proof. by cbn. Qed.

Section Recording.
Context (host : Host).

Lemma record_success_spec (in_key out_key : string) (read_output : Value -> Outcome Value)
  (model : Value) (trace : Trace.t) (span : SpanRef) (response output : Value) (w : World) :
  proxied_key in_key = false ->
  proxied_key out_key = false ->
  read_output response = Returns output ->
  exists usage prompt completion,
    opt_get response "usage" = Returns usage /\
    opt_get usage in_key = Returns prompt /\
    opt_get usage out_key = Returns completion /\
    record_success host in_key out_key read_output model trace span response w =
      (fst (Trace.end_ {| TraceEndOptions.status := completed;
                          TraceEndOptions.output := output |} trace
              (span_end span
                 {| SpanEndOptions.inputTokens := js_or prompt (VNum 0%float);
                    SpanEndOptions.outputTokens := js_or completion (VNum 0%float);
                    SpanEndOptions.cost :=
                      compute_cost host (resolve_rates host w model)
                        (js_or prompt (VNum 0%float)) (js_or completion (VNum 0%float));
                    SpanEndOptions.status := SpanOk;
                    SpanEndOptions.errorMessage := VUndefined;
                    SpanEndOptions.output := output;
                    SpanEndOptions.timeToFirstTokenMs := VUndefined |} w)),
       Returns response).
Proof.
  intros Hin Hout Hread.
  destruct (opt_get_returns response "usage" eq_refl) as [usage Husage].
  destruct (opt_get_returns usage in_key Hin) as [prompt Hprompt].
  destruct (opt_get_returns usage out_key Hout) as [completion Hcompletion].
  exists usage, prompt, completion. repeat split; try done.
  unfold record_success. rewrite Husage. cbn. rewrite Hprompt. cbn.
  rewrite Hcompletion. cbn. rewrite Hread. reflexivity.
Qed.

Lemma record_failure_spec (trace : Trace.t) (span : SpanRef) (err : Value) (w : World) :
  exists message,
    opt_get err "message" = Returns message /\
    record_failure host trace span err w =
      (fst (Trace.end_ {| TraceEndOptions.status := TraceError;
                          TraceEndOptions.output := VUndefined |} trace
              (span_end span
                 {| SpanEndOptions.inputTokens := VUndefined;
                    SpanEndOptions.outputTokens := VUndefined;
                    SpanEndOptions.cost := VUndefined;
                    SpanEndOptions.status := SpanError;
                    SpanEndOptions.errorMessage := js_or message (VStr (ToString host err));
                    SpanEndOptions.output := VUndefined;
                    SpanEndOptions.timeToFirstTokenMs := VUndefined |} w)),
       Throws err).
Proof.
  destruct (opt_get_returns err "message" eq_refl) as [message Hm].
  exists message. split; [done|]. unfold record_failure. by rewrite Hm.
Qed.

Lemma traced_open_spans (k : TracedCall) (args : list Value) (w w1 : World)
  (model : Value) (trace : Trace.t) (span : SpanRef) :
  traced_open host k args w = (w1, Returns (model, trace, span)) ->
  Trace.spans trace = [span] /\
  exists named,
    js_get (js_or (nth 0 args VUndefined) (VObj [])) "model" = Returns named /\
    model = js_or named (VStr "unknown").
Proof.
  destruct k as [provider method|]; cbn [traced_open];
    unfold openai_open, anthropic_open; cbn zeta;
    destruct (js_get _ "model") as [named|e]; try discriminate.
  - cbn [startTrace]. destruct (last_message _ _ _) as [w' [inp|e]]; try discriminate.
    cbn. intros [= <- <- <- <-]. split; [done|]. by exists named.
  - cbn. intros [= <- <- <- <-]. split; [done|]. by exists named.
Qed.

Lemma params_model_returns (args : list Value) :
  exists named, js_get (js_or (nth 0 args VUndefined) (VObj [])) "model" = Returns named.
Proof.
  unfold js_get, js_or.
  destruct (truthy (nth 0 args VUndefined)) eqn:Ht.
  - destruct (nth 0 args VUndefined); try discriminate; cbn [nullish];
      by apply Reflect_get_returns.
  - by eexists.
Qed.

(** The Anthropic call always reaches the provider function; the OpenAI
    call reaches it whenever [params.messages] is falsy, an array or a
    string, the cases where [slice] is the built-in. *)
Lemma anthropic_open_returns (args : list Value) (w : World) :
  exists w1 model trace span,
    anthropic_open host args w = (w1, Returns (model, trace, span)).
Proof.
  unfold anthropic_open. cbn zeta.
  destruct (params_model_returns args) as [named ->]. cbn. by eexists _, _, _, _.
Qed.

Lemma openai_open_returns (provider method : string) (args : list Value) (w : World)
  (messages : Value) :
  js_get (js_or (nth 0 args VUndefined) (VObj [])) "messages" = Returns messages ->
  truthy messages = false \/ (exists items, messages = VArr items) \/
    (exists s, messages = VStr s) ->
  exists w1 model trace span,
    openai_open host provider method args w = (w1, Returns (model, trace, span)).
Proof.
  intros Hget Hshape. unfold openai_open. cbn zeta.
  destruct (params_model_returns args) as [named ->]. cbn [startTrace].
  unfold last_message. rewrite Hget.
  destruct Hshape as [Hf|[[items ->]|[str ->]]].
  - rewrite Hf. cbn. by eexists _, _, _, _.
  - cbn. by eexists _, _, _, _.
  - destruct (truthy (VStr str)); cbn; by eexists _, _, _, _.
Qed.

End Recording.

Section TracedCalls.
Context (host : Host).

Lemma traced_call_after_open (k : TracedCall) (fn : list Value -> Run Value)
  (args : list Value) (w w1 : World) (model : Value) (trace : Trace.t) (span : SpanRef) :
  traced_open host k args w = (w1, Returns (model, trace, span)) ->
  traced_call host k fn args w =
    try_traced fn args
      (record_success host (input_key k) (output_key k) (output_reader k) model trace span)
      (record_failure host trace span) w1.
Proof.
  destruct k; cbn [traced_open traced_call input_key output_key output_reader];
    unfold _traceOpenAICall, _traceAnthropicCall; by intros ->.
Qed.

Lemma output_reader_returns (k : TracedCall) (response : Value) :
  exists r, output_reader k response = Returns r.
Proof. destruct k; [apply openai_output_returns|apply anthropic_output_returns]. Qed.

Lemma input_key_plain (k : TracedCall) : proxied_key (input_key k) = false.
Proof. by destruct k. Qed.

Lemma output_key_plain (k : TracedCall) : proxied_key (output_key k) = false.
Proof. by destruct k. Qed.

Lemma payload_of_ended_trace (opts : TraceEndOptions.t) (tr : Trace.t) (w : World)
  (span : SpanRef) (s : Span.t) :
  Trace.spans tr = [span] ->
  heap w !! span = Some s ->
  exists payload,
    traceBuffer (fst (Trace.end_ opts tr w)) = traceBuffer w ++ [payload] /\
    heap (fst (Trace.end_ opts tr w)) = heap w /\
    Reflect_get payload "status" =
      Returns (VStr (TraceStatus_literal (TraceEndOptions.status opts))) /\
    Reflect_get payload "spans" = Returns (VArr [Span.toJSON s]) /\
    Reflect_get payload "output" =
      Returns (js_coalesce (if TraceEndOptions.output opts is VUndefined
                            then Trace.output tr else TraceEndOptions.output opts) VNull).
Proof.
  intros Hspans Hs. eexists. split; [reflexivity|]. split; [reflexivity|].
  cbn. rewrite Hspans. cbn. rewrite Hs. by cbn.
Qed.

(** C1, in the form that holds of the code. Whenever a traced provider
    call reaches the original function: if that function resolves, the span ends with status "ok", the
    trace is delivered with status "completed" and the response is returned
    as it is; if it throws, the span ends with status "error", the trace is
    delivered with status "error" and the very value thrown is thrown again.
    The error message recorded is [err.message] when that is truthy, and
    [String(err)] otherwise; for an [Error] with a non-empty message it is
    that message. *)
Theorem traced_call_records_the_outcome
  (k : TracedCall) (fn : list Value -> Run Value) (args : list Value)
  (w w1 w2 : World) (model : Value) (trace : Trace.t) (span : SpanRef)
  (out : Outcome Value) (s2 : Span.t) :
  traced_open host k args w = (w1, Returns (model, trace, span)) ->
  fn args w1 = (w2, out) ->
  heap w2 !! span = Some s2 ->
  exists w3 s3 payload,
    traced_call host k fn args w = (w3, out) /\
    heap w3 !! span = Some s3 /\
    traceBuffer w3 = traceBuffer w2 ++ [payload] /\
    Reflect_get payload "spans" = Returns (VArr [Span.toJSON s3]) /\
    match out with
    | Returns _ =>
        Span.status s3 = Some SpanOk /\
        Reflect_get payload "status" = Returns (VStr "completed")
    | Throws err =>
        Span.status s3 = Some SpanError /\
        Reflect_get payload "status" = Returns (VStr "error") /\
        (exists message,
           opt_get err "message" = Returns message /\
           Span.errorMessage s3 = js_or message (VStr (ToString host err))) /\
        (forall name message,
           err = VError name message -> message <> "" ->
           Span.errorMessage s3 = VStr message)
    end.
Proof.
  intros Hopen Hfn Hs2.
  destruct (traced_open_spans host k args w w1 model trace span Hopen) as [Hspans _].
  rewrite (traced_call_after_open k fn args w w1 model trace span Hopen).
  unfold try_traced. rewrite Hfn. destruct out as [response|err].
  - destruct (output_reader_returns k response) as [output Hread].
    destruct (record_success_spec host _ _ _ model trace span response output w2
                (input_key_plain k) (output_key_plain k) Hread)
      as (usage & prompt & completion & _ & _ & _ & ->).
    set (opts := SpanEndOptions.mk _ _ _ _ _ _ _).
    pose proof (span_end_lookup span opts w2 s2 Hs2) as Hs3.
    destruct (payload_of_ended_trace
                {| TraceEndOptions.status := completed; TraceEndOptions.output := output |}
                trace _ span _ Hspans Hs3) as (payload & Hbuf & Hheap & Hst & Hsp & _).
    eexists _, _, payload. split; [reflexivity|].
    rewrite Hheap, Hbuf. split; [exact Hs3|].
    destruct (span_end_frame span opts w2) as (_ & -> & _).
    repeat split; done.
  - destruct (record_failure_spec host trace span err w2) as (message & Hm & ->).
    set (opts := SpanEndOptions.mk _ _ _ _ _ _ _).
    pose proof (span_end_lookup span opts w2 s2 Hs2) as Hs3.
    destruct (payload_of_ended_trace
                {| TraceEndOptions.status := TraceError; TraceEndOptions.output := VUndefined |}
                trace _ span _ Hspans Hs3) as (payload & Hbuf & Hheap & Hst & Hsp & _).
    eexists _, _, payload. split; [reflexivity|].
    rewrite Hheap, Hbuf. split; [exact Hs3|].
    destruct (span_end_frame span opts w2) as (_ & -> & _).
    repeat split; try done.
    + by exists message.
    + intros name msg -> Hne. cbn in Hm. injection Hm as <-.
      cbn. unfold js_or. cbn. by apply String.eqb_neq in Hne as ->.
Qed.

End TracedCalls.

(** C1 does not hold with "the error's message" read strictly: function 2
    of the sample host rejects with [new Error("")], whose message is the empty string, and the
    span records ["Error"], which is [String(err)]. *)
Lemma empty_error_message_is_replaced :
  snd (traced_call sample_host (OpenAICall "openai" "chat.completions.create")
         (call sample_host (VFun 2) VUndefined) [sample_request] sample_world)
    = Throws (VError "Error" "") /\
  Reflect_get (VError "Error" "") "message" = Returns (VStr "") /\
  Span.errorMessage <$>
    heap (fst (traced_call sample_host (OpenAICall "openai" "chat.completions.create")
                 (call sample_host (VFun 2) VUndefined) [sample_request] sample_world))
      !! 0%nat
    = Some (VStr "Error").
Proof. vm_compute. repeat split. Qed.

(** C1 at the sample chat completion. *)
Lemma sample_chat_call_is_recorded :
  exists w3,
    traced_call sample_host (OpenAICall "openai" "chat.completions.create")
      (call sample_host (VFun 0) VUndefined) [sample_request] sample_world
    = (w3, Returns sample_response).
Proof.
  edestruct (traced_call_records_the_outcome sample_host
               (OpenAICall "openai" "chat.completions.create")
               (call sample_host (VFun 0) VUndefined) [sample_request] sample_world)
    as (w3 & s3 & payload & Hcall & _).
  - vm_compute. reflexivity.
  - vm_compute. reflexivity.
  - vm_compute. reflexivity.
  - exists w3. exact Hcall.
Defined.

(** ** Cost *)

Lemma index_entry (table : Table) (key : string) (rates : Rates) :
  key <> "__proto__" -> entries table !! key = Some rates ->
  index table key = Entry rates.
Proof.
  intros Hkey He. unfold index.
  destruct (String.eqb_spec key "__proto__") as [->|_]; [done|]. by rewrite He.
Qed.


(** An override under a name of its own is what the name resolves to. *)
Lemma resolve_rates_override (host : Host) (w : World) (model : Value) (rates : Rates) :
  ToString host model <> "__proto__" ->
  entries (_modelCosts w) !! ToString host model = Some rates ->
  resolve_rates host w model = Entry rates.
Proof.
  intros Hkey He. unfold resolve_rates. cbn zeta.
  by rewrite (index_entry _ _ rates Hkey He).
Qed.


Lemma setModelCosts_takes_precedence
  (host : Host) (name : string) (rates : Rates) (w : World) :
  name <> "__proto__" ->
  resolve_rates host (setModelCosts name rates w) (VStr name) = Entry rates.
Proof.
  intros Hkey. apply resolve_rates_override; [done|].
  cbn [ToString]. unfold setModelCosts, store.
  destruct (String.eqb_spec name "__proto__") as [->|_]; [done|].
  cbn. by rewrite lookup_insert_eq.
Qed.




(** The scenario of the specification: 100 prompt tokens and 50 completion
    tokens of "gpt-4o" cost 100 * 2.5e-6 + 50 * 10e-6 = 0.00075; after an
    override of the model's rates the same call costs by the override; a
    model in no table costs 0. *)
Example sample_chat_call_costs :
  Span.cost <$>
    heap (fst (traced_call sample_host (OpenAICall "openai" "chat.completions.create")
                 (call sample_host (VFun 0) VUndefined) [sample_request] sample_world))
      !! 0%nat
  = Some (VNum 0.00075%float).
Proof. vm_compute. reflexivity. Qed.

Example overridden_chat_call_costs :
  Span.cost <$>
    heap (fst (traced_call sample_host (OpenAICall "openai" "chat.completions.create")
                 (call sample_host (VFun 0) VUndefined) [sample_request]
                 (setModelCosts "gpt-4o" {| input := 1; output := 2 |} sample_world)))
      !! 0%nat
  = Some (VNum 200%float).
Proof. vm_compute. reflexivity. Qed.

Example unknown_model_costs_nothing :
  Span.cost <$>
    heap (fst (traced_call sample_host AnthropicCall
                 (call sample_host (VFun 0) VUndefined)
                 [VObj [("model", VStr "some-new-model")]] sample_world))
      !! 0%nat
  = Some (VNum 0%float).
Proof. vm_compute. reflexivity. Qed.

(** ** traceGeneration *)

Section Generation.
Context (host : Host).

Lemma generation_open_spec (opts : TraceGenerationOptions.t) (w w1 : World)
  (trace : Trace.t) (span : SpanRef) :
  generation_open host opts w = (w1, (trace, span)) ->
  Trace.spans trace = [span] /\ Trace.output trace = VUndefined /\
  span = length (heap w) /\
  exists s, heap w1 = heap w ++ [s] /\ Span.status s = None /\ Span.output s = VUndefined.
Proof.
  unfold generation_open. cbn. intros [= <- <- <-]. cbn.
  repeat split; try done. eexists. by split.
Qed.

Lemma generation_error_message_returns (err : Value) :
  exists message, generation_error_message host err = Returns message.
Proof.
  unfold generation_error_message. destruct (instanceof_Error err) eqn:He; [|by eexists].
  unfold js_get. destruct err; try discriminate; cbn [nullish];
    by apply Reflect_get_returns.
Qed.

(** C9. [traceGeneration] hands the callback the span it has just started.
    When the callback returns, the trace is delivered with status
    "completed" and as output what the callback left in [span.output]
    ([null] when it left nothing), the span is exactly as the callback left
    it, and the callback's value is returned.  When the callback throws, a
    span the callback has already ended keeps its state, a span it has not
    ended is ended with status "error", the trace is delivered with status
    "error", and the value thrown is thrown again. *)
Theorem traceGeneration_ends_the_trace
  (opts : TraceGenerationOptions.t) (fn : SpanRef -> Run Value)
  (w w1 w2 : World) (trace : Trace.t) (span : SpanRef) (out : Outcome Value)
  (s2 : Span.t) :
  generation_open host opts w = (w1, (trace, span)) ->
  fn span w1 = (w2, out) ->
  heap w2 !! span = Some s2 ->
  exists w3 s3 payload,
    traceGeneration host opts fn w = (w3, out) /\
    heap w3 !! span = Some s3 /\
    traceBuffer w3 = traceBuffer w2 ++ [payload] /\
    Reflect_get payload "spans" = Returns (VArr [Span.toJSON s3]) /\
    match out with
    | Returns _ =>
        heap w3 = heap w2 /\
        Reflect_get payload "status" = Returns (VStr "completed") /\
        Reflect_get payload "output" = Returns (js_coalesce (Span.output s2) VNull)
    | Throws err =>
        Reflect_get payload "status" = Returns (VStr "error") /\
        match Span.status s2 with
        | Some _ => heap w3 = heap w2
        | None =>
            Span.status s3 = Some SpanError /\
            Span.latencyMs s3 = Some (now w2 - Span.startedAt s2) /\
            generation_error_message host err = Returns (Span.errorMessage s3)
        end
    end.
Proof.
  intros Hopen Hfn Hs2.
  destruct (generation_open_spec opts w w1 trace span Hopen) as (Hspans & Hout & _).
  unfold traceGeneration. rewrite Hopen, Hfn. destruct out as [result|err].
  - unfold span_field. rewrite Hs2.
    destruct (payload_of_ended_trace
                {| TraceEndOptions.status := completed;
                   TraceEndOptions.output := Span.output s2 |}
                trace w2 span s2 Hspans Hs2) as (payload & Hbuf & Hheap & Hst & Hsp & Ho).
    eexists _, s2, payload. split; [reflexivity|].
    rewrite Hheap, Hbuf. repeat split; try done.
    rewrite Ho. cbn [TraceEndOptions.output]. rewrite Hout. by destruct (Span.output s2).
  - unfold generation_failure, span_field. rewrite Hs2.
    destruct (Span.status s2) as [st|] eqn:Hstatus.
    + cbn [mret Outcome_ret].
      destruct (payload_of_ended_trace
                  {| TraceEndOptions.status := TraceError;
                     TraceEndOptions.output := VUndefined |}
                  trace w2 span s2 Hspans Hs2) as (payload & Hbuf & Hheap & Hst & Hsp & _).
      eexists _, s2, payload. split; [reflexivity|].
      rewrite Hheap, Hbuf. by repeat split.
    + destruct (generation_error_message_returns err) as [message Hm].
      rewrite Hm. cbn [mbind Outcome_bind mret Outcome_ret].
      set (eopts := SpanEndOptions.mk _ _ _ _ _ _ _).
      pose proof (span_end_lookup span eopts w2 s2 Hs2) as Hs3.
      destruct (payload_of_ended_trace
                  {| TraceEndOptions.status := TraceError;
                     TraceEndOptions.output := VUndefined |}
                  trace _ span _ Hspans Hs3) as (payload & Hbuf & Hheap & Hst & Hsp & _).
      eexists _, _, payload. split; [reflexivity|].
      rewrite Hheap, Hbuf. split; [exact Hs3|].
      destruct (span_end_frame span eopts w2) as (_ & -> & _).
      by repeat split.
Qed.

End Generation.

(** C9 at a callback that ends its span with the output "Hi!". *)
Lemma sample_generation_is_delivered :
  exists w3 payload,
    traceGeneration sample_host sample_generation sample_callback sample_world
      = (w3, Returns (VStr "Hi!")) /\
    traceBuffer w3 = [payload] /\
    Reflect_get payload "output" = Returns (VStr "Hi!").
Proof.
  edestruct (traceGeneration_ends_the_trace sample_host sample_generation
               sample_callback sample_world)
    as (w3 & s3 & payload & Hcall & _ & Hbuf & _ & Hout).
  - vm_compute. reflexivity.
  - vm_compute. reflexivity.
  - vm_compute. reflexivity.
  - exists w3, payload. split; [exact Hcall|]. split; [exact Hbuf|].
    destruct Hout as (_ & _ & Hout). exact Hout.
Defined.

(** C7 at the scenario of the specification. *)
Lemma sample_span_end_scenario :
  exists s',
    heap (span_end 0%nat sample_end (snd (trace_ops sample_host sample_session
                                            (sample_trace, sample_world))))
      !! 0%nat = Some s' /\
    Span.latencyMs s' = Some 250 /\
    Span.inputTokens s' = VNum 100%float /\
    Span.cost s' = VUndefined.
Proof.
  edestruct (Span_end_records_latency_and_given_metrics 0%nat sample_end
               (snd (trace_ops sample_host sample_session (sample_trace, sample_world))))
    as (s' & Hs' & Hlat & _ & _ & _ & Hin & _ & _ & _ & _ & _ & Hcost).
  - vm_compute. reflexivity.
  - exists s'. split; [exact Hs'|]. split; [exact Hlat|]. split; [exact Hin|].
    apply Hcost. reflexivity.
Defined.

(** C7 does not hold of every span: [Span.end] subtracts two readings of
    the wall clock and keeps the sign.  A span is started, the clock is set
    back by 50 ms, and the span is ended: its latency is -50. *)
Lemma span_ended_after_the_clock_was_set_back :
  exists s',
    heap (span_end 0%nat sample_end
            (later (-50) (snd (trace_ops sample_host (take 1 sample_session)
                                 (sample_trace, sample_world)))))
      !! 0%nat = Some s' /\
    Span.latencyMs s' = Some (-50) /\
    ~ (0 <= -50).
Proof.
  eexists. split; [vm_compute; reflexivity|]. split; [reflexivity|]. lia.
Qed.

(** ** Wrappers *)

(** C2, at its failing inputs. Wrapping an object that has no [chat], no
    [embeddings] or no [messages] succeeds, but reading that member from the
    wrapper throws a [TypeError], where the object itself yields
    [undefined]: the trap hands the missing value to [new Proxy]. *)
Theorem wrapper_of_partial_client_throws (host : Host) :
  (exists wrapped,
     wrapOpenAI host (VObj []) = Returns wrapped /\
     js_get (VObj []) "chat" = Returns VUndefined /\
     js_get wrapped "chat" =
       Throws (TypeError "Cannot create proxy with a non-object as target or handler") /\
     js_get wrapped "embeddings" =
       Throws (TypeError "Cannot create proxy with a non-object as target or handler")) /\
  (exists wrapped,
     wrapOpenAI host (VObj [("chat", VObj [])]) = Returns wrapped /\
     (exists chat, js_get wrapped "chat" = Returns chat /\
        js_get chat "completions" =
          Throws (TypeError "Cannot create proxy with a non-object as target or handler"))) /\
  (exists wrapped,
     wrapAnthropic (VObj []) = Returns wrapped /\
     js_get (VObj []) "messages" = Returns VUndefined /\
     js_get wrapped "messages" =
       Throws (TypeError "Cannot create proxy with a non-object as target or handler")).
Proof.
  repeat split.
  - eexists. split; [reflexivity|]. by repeat split.
  - eexists. split; [reflexivity|]. eexists. by split.
  - eexists. split; [reflexivity|]. by repeat split.
Qed.







(** On a member that is not fixed, a proxy answers what its trap answers. *)
Lemma js_get_unfixed (h : Handler) (t : Value) (key : string) :
  fixed_member t key = false ->
  js_get (VProxy h t) key = Reflect_get t key ≫= trap_get h t key.
Proof.
  intros Hf. unfold js_get. cbn [nullish Reflect_get]. rewrite Hf.
  destruct (Reflect_get t key) as [v|e]; cbn [mbind Outcome_bind]; [|done].
  by destruct (trap_get h t key v).
Qed.

(** Reading [chat.completions.create] through an OpenAI wrapper gives the
    closure that runs [_traceOpenAICall] around the client's own function,
    bound to the client's own [completions] object. *)
Lemma wrapped_create_is_traced
  (host : Host) (provider : Provider) (client chat completions create : Value) :
  is_object client = true -> fixed_member client "chat" = false ->
  Reflect_get client "chat" = Returns chat -> is_object chat = true ->
  fixed_member chat "completions" = false ->
  Reflect_get chat "completions" = Returns completions -> is_object completions = true ->
  fixed_member completions "create" = false ->
  Reflect_get completions "create" = Returns create -> is_function create = true ->
  read_path (VProxy (HOpenAI provider) client) ["chat"; "completions"; "create"] =
    Returns (VTraced (OpenAICall provider "chat.completions.create") create completions) /\
  forall this args,
    call host (VTraced (OpenAICall provider "chat.completions.create") create completions)
      this args =
    _traceOpenAICall host provider "chat.completions.create"
      (call host create completions) args.
Proof.
  intros Hclient Hf1 Hchat Hochat Hf2 Hcomp Hocomp Hf3 Hcreate Hfun. split; [|done].
  cbn [read_path]. rewrite (js_get_unfixed _ _ _ Hf1), Hchat. cbn.
  unfold new_Proxy. rewrite Hochat. cbn.
  rewrite Hf2, Hcomp. cbn. unfold new_Proxy. rewrite Hocomp. cbn.
  rewrite Hf3, Hcreate. cbn. by rewrite Hfun.
Qed.

Example sample_instrumented_call :
  read_path sample_wrapped ["chat"; "completions"; "create"] = Returns sample_create /\
  snd (call sample_host sample_create VUndefined [sample_request] sample_world)
    = Returns sample_response /\
  length (traceBuffer (fst (call sample_host sample_create VUndefined [sample_request]
                              sample_world))) = 1%nat.
Proof. vm_compute. repeat split. Qed.




(** On a frozen client the language refuses the proxy the trap answers for
    [chat]: a path that reads through on an ordinary client throws. *)
Example frozen_client_cannot_be_read_through :
  exists wrapped e,
    wrapOpenAI sample_host (VFrozen [("chat", VObj [("version", VStr "v1")])])
      = Returns wrapped /\
    read_path (VFrozen [("chat", VObj [("version", VStr "v1")])]) ["chat"; "version"]
      = Returns (VStr "v1") /\
    read_path wrapped ["chat"; "version"] = Throws e.
Proof. eexists _, _. repeat split; vm_compute; reflexivity. Qed.

(** ** Delivery *)

Lemma flat_map_insert {A B : Type} (f : A -> list B) (l : list A) (i : nat) (x y : A) :
  l !! i = Some x ->
  flat_map f (<[i := y]> l) ++ f x ≡ₚ flat_map f l ++ f y.
Proof.
  intros Hx. pose proof (lookup_lt_Some _ _ _ Hx) as Hlt.
  rewrite (insert_take_drop l i y Hlt).
  rewrite <- (take_drop_middle l i x Hx) at 3.
  rewrite !flat_map_app. cbn. solve_Permutation.
Qed.

Lemma flat_map_insert_same {A B : Type} (f : A -> list B) (l : list A) (i : nat) (x y : A) :
  l !! i = Some x -> f x = f y -> flat_map f (<[i := y]> l) = flat_map f l.
Proof.
  intros Hx Hf. pose proof (lookup_lt_Some _ _ _ Hx) as Hlt.
  rewrite (insert_take_drop l i y Hlt).
  rewrite <- (take_drop_middle l i x Hx) at 3.
  rewrite !flat_map_app. cbn. by rewrite Hf.
Qed.

Lemma flush_call_accounted (e0 e : Endpoint) (w : World) :
  accounted e (flush_call e0 w) = accounted e w.
Proof.
  unfold accounted, flush_call. destruct (pending e0 w); [done|].
  unfold sent, in_flight. cbn. rewrite flat_map_app. cbn. rewrite !app_nil_r.
  by destruct e.
Qed.

Lemma flush_accounted (e : Endpoint) (w : World) : accounted e (flush w) = accounted e w.
Proof.
  unfold flush, _flushTraces, _flushErrors. by rewrite !flush_call_accounted.
Qed.

Lemma resume_accounted (e : Endpoint) (i : nat) (w : World) :
  accounted e (resume i w) ≡ₚ accounted e w.
Proof.
  unfold resume. destruct (tasks w !! i) as [[e0|e0 items|e0 items| |]|] eqn:Hi; try done.
  - unfold accounted, sent, in_flight.
    destruct e, e0; cbn [splice_all pending tasks requests with_tasks with_buffer
                           with_traceBuffer buffer traceBuffer];
      try (rewrite (flat_map_insert_same _ _ _ _ _ Hi) by done; done);
      pose proof (flat_map_insert (task_items IngestBatch) _ i _
                    (AwaitSign IngestBatch (buffer w)) Hi) as HI;
      pose proof (flat_map_insert (task_items TracesBatch) _ i _
                    (AwaitSign TracesBatch (traceBuffer w)) Hi) as HT;
      cbn in HI, HT; rewrite app_nil_r in HI, HT; rewrite ?app_nil_r;
      [rewrite HI|rewrite HT]; done.
  - unfold accounted, sent, in_flight.
    cbn [pending tasks requests with_tasks with_requests buffer traceBuffer].
    rewrite flat_map_app. cbn [flat_map]. rewrite app_nil_r.
    pose proof (flat_map_insert (task_items e) _ i _ (AwaitFetch e0 items) Hi) as H.
    cbn [task_items] in H. rewrite app_nil_r in H.
    unfold request_items at 2. cbn [fst snd].
    assert (pending e (with_requests (requests w ++ [(e0, items)])
                         (with_tasks (<[i:=AwaitFetch e0 items]> (tasks w)) w))
            = pending e w) as -> by by destruct e.
    rewrite <- H. solve_Permutation.
  - unfold accounted, sent, in_flight.
    cbn [pending tasks requests with_tasks buffer traceBuffer].
    rewrite (flat_map_insert_same _ _ _ _ _ Hi) by done. by destruct e.
Qed.

Lemma step_accounted (e : Endpoint) (s : Step) (w : World) :
  accounted e (step s w) ≡ₚ accounted e w ++ enqueues e s w.
Proof.
  destruct s as [event|payload| |i]; cbn [step enqueues].
  - unfold capture. cbn zeta.
    match goal with |- context [if ?c then _ else _] => destruct c end;
      rewrite ?flush_accounted; unfold accounted, sent, in_flight;
      destruct e; cbn; rewrite ?app_nil_r, ?app_assoc; done.
  - unfold accounted, sent, in_flight, _pushTrace.
    destruct e; cbn; rewrite ?app_nil_r, ?app_assoc; done.
  - rewrite flush_accounted. destruct e; by rewrite app_nil_r.
  - rewrite resume_accounted. destruct e; by rewrite app_nil_r.
Qed.

Lemma run_accounted (e : Endpoint) (steps : list Step) (w : World) :
  accounted e (run steps w) ≡ₚ accounted e w ++ enqueued e steps w.
Proof.
  revert w. induction steps as [|s rest IH]; intros w.
  - by rewrite app_nil_r.
  - change (run (s :: rest) w) with (run rest (step s w)).
    rewrite IH, step_accounted. cbn [enqueued]. by rewrite app_assoc.
Qed.

(** Flushing with both buffers empty starts nothing, so nothing is sent. *)
Lemma flush_of_empty_buffers (w : World) :
  buffer w = [] -> traceBuffer w = [] -> flush w = w.
Proof.
  intros Hb Ht. unfold flush, _flushTraces, _flushErrors, flush_call.
  cbn [pending]. rewrite Hb. cbn [pending]. by rewrite Ht.
Qed.

Lemma flush_call_tasks (e : Endpoint) (w : World) (i : nat) (t : Task) :
  tasks w !! i = Some t -> tasks (flush_call e w) !! i = Some t.
Proof.
  intros Hi. unfold flush_call. destruct (pending e w); [done|].
  cbn. by apply lookup_app_l_Some.
Qed.

Lemma step_keeps_other_tasks (s : Step) (w : World) (i : nat) (t : Task) :
  tasks w !! i = Some t -> s <> DoResume i -> tasks (step s w) !! i = Some t.
Proof.
  intros Hi Hs. destruct s as [event|payload| |j]; cbn [step].
  - unfold capture. cbn zeta.
    match goal with |- context [if ?c then _ else _] => destruct c end; [|done].
    unfold flush, _flushTraces, _flushErrors. by do 2 apply flush_call_tasks.
  - done.
  - unfold flush, _flushTraces, _flushErrors. by do 2 apply flush_call_tasks.
  - assert (j <> i) as Hji by congruence.
    unfold resume. destruct (tasks w !! j) as [[e|e items|e items| |]|]; try done;
      try destruct e; cbn; by rewrite list_lookup_insert_ne.
Qed.

(** C4, in the form that holds of the code. Starting a flush leaves the
    buffer as it is; the flush takes the buffer when it is resumed from [await this.keyReady],
    in one step that hands it every item present at that moment and leaves
    the buffer empty; the batch it took is the batch it later hands to
    [fetch], and nothing else that happens meanwhile changes it.  Hence,
    along every schedule of captures, trace pushes, flush calls and
    resumptions, the items sent, the items held by flushes in flight and
    the items still buffered are together exactly the items enqueued, each
    as many times as it was enqueued: none is sent in two batches. *)
Theorem flush_takes_the_buffer_once
  (steps : list Step) (w : World) (e : Endpoint) (i : nat) :
  pending e (flush w) = pending e w /\
  match tasks w !! i with
  | Some (AwaitKey e') =>
      tasks (resume i w) !! i = Some (AwaitSign e' (pending e' w)) /\
      pending e' (resume i w) = [] /\
      requests (resume i w) = requests w
  | Some (AwaitSign e' items) =>
      tasks (resume i w) !! i = Some (AwaitFetch e' items) /\
      requests (resume i w) = requests w ++ [(e', items)] /\
      pending e (resume i w) = pending e w
  | _ =>
      requests (resume i w) = requests w /\
      pending e (resume i w) = pending e w
  end /\
  (forall s t, tasks w !! i = Some t -> s <> DoResume i ->
     tasks (step s w) !! i = Some t) /\
  accounted e (run steps w) ≡ₚ accounted e w ++ enqueued e steps w /\
  sent e (run steps w) ⊆+ accounted e w ++ enqueued e steps w.
Proof.
  split; [|split; [|split; [|split]]].
  - unfold flush, _flushTraces, _flushErrors. by rewrite !flush_call_buffers.
  - unfold resume. destruct (tasks w !! i) as [[e'|e' items|e' items| |]|] eqn:Hi.
    + pose proof (lookup_lt_Some _ _ _ Hi) as Hlt.
      destruct e'; cbn; by rewrite list_lookup_insert_eq.
    + pose proof (lookup_lt_Some _ _ _ Hi) as Hlt.
      cbn. rewrite list_lookup_insert_eq by done. by destruct e.
    + by destruct e.
    + done.
    + done.
    + done.
  - intros s t. apply step_keeps_other_tasks.
  - apply run_accounted.
  - rewrite <- run_accounted. unfold accounted. apply submseteq_inserts_r. done.
Qed.

(** C4 does not hold with "present at flush start": an error is captured,
    a flush is started while the buffer holds that one item, a second error is
    captured while the flush waits for the key, and the flush, resumed,
    takes both items and sends both in its batch. *)
Lemma flush_takes_items_enqueued_after_its_start :
  exists a b,
    pending IngestBatch (run [DoCapture (sample_error "first"); DoFlush] sample_world)
      = [a] /\
    tasks (run [DoCapture (sample_error "first"); DoFlush] sample_world) !! 0%nat
      = Some (AwaitKey IngestBatch) /\
    tasks (run [DoCapture (sample_error "first"); DoFlush;
                DoCapture (sample_error "second"); DoResume 0] sample_world) !! 0%nat
      = Some (AwaitSign IngestBatch [a; b]) /\
    requests (run [DoCapture (sample_error "first"); DoFlush;
                   DoCapture (sample_error "second"); DoResume 0; DoResume 0]
                sample_world)
      = [(IngestBatch, [a; b])] /\
    a <> b.
Proof.
  eexists _, _. vm_compute. repeat split. discriminate.
Qed.

(** C6 at the cost of a span that has not been ended. *)
Lemma absent_cost_serializes_as_null :
  Reflect_get (Span.toJSON sample_span) "cost" = Returns VNull /\
  ("cost", VNull) ∈ wire_members (Span.toJSON sample_span).
Proof.
  apply (absent_optional_member_serializes_as_null (OfSpan sample_span) "cost" VUndefined).
  - do 7 apply list_elem_of_further. apply list_elem_of_here.
  - reflexivity.
Defined.

(** * Further properties *)

(** ** Delivery: what a flush sends, and when *)

Lemma run_app (steps1 steps2 : list Step) (w : World) :
  run (steps1 ++ steps2) w = run steps2 (run steps1 w).
Proof. apply fold_left_app. Qed.

Lemma run_cons (s : Step) (steps : list Step) (w : World) :
  run (s :: steps) w = run steps (step s w).
Proof. reflexivity. Qed.

Lemma flush_call_frame (e : Endpoint) (w : World) :
  buffer (flush_call e w) = buffer w /\
  traceBuffer (flush_call e w) = traceBuffer w /\
  requests (flush_call e w) = requests w /\
  config (flush_call e w) = config w /\
  tasks (flush_call e w) =
    tasks w ++ (if pending e w is [] then [] else [AwaitKey e]).
Proof.
  unfold flush_call. destruct (pending e w); cbn; by rewrite ?app_nil_r.
Qed.

Lemma flush_frame (w : World) :
  buffer (flush w) = buffer w /\
  traceBuffer (flush w) = traceBuffer w /\
  requests (flush w) = requests w /\
  config (flush w) = config w /\
  tasks (flush w) =
    tasks w ++ (if buffer w is [] then [] else [AwaitKey IngestBatch])
            ++ (if traceBuffer w is [] then [] else [AwaitKey TracesBatch]).
Proof.
  unfold flush, _flushTraces, _flushErrors.
  destruct (flush_call_frame IngestBatch w) as (Hb & Ht & Hr & Hc & Hk).
  destruct (flush_call_frame TracesBatch (flush_call IngestBatch w))
    as (Hb' & Ht' & Hr' & Hc' & Hk').
  rewrite Hb', Ht', Hr', Hc', Hk', Hb, Ht, Hr, Hc, Hk. cbn [pending].
  rewrite Ht. by rewrite <- app_assoc.
Qed.

Lemma capture_frame (event : ErrorEvent.t) (w : World) :
  buffer (capture event w) = buffer w ++ [VObj (ingest_event event w)] /\
  traceBuffer (capture event w) = traceBuffer w /\
  requests (capture event w) = requests w /\
  config (capture event w) = config w /\
  tasks (capture event w) =
    if Z.of_nat (S (length (buffer w))) >=? threshold w
    then tasks w ++ [AwaitKey IngestBatch]
                 ++ (if traceBuffer w is [] then [] else [AwaitKey TracesBatch])
    else tasks w.
Proof.
  unfold capture, threshold. cbn zeta.
  cbn [buffer with_buffer config]. rewrite length_app. cbn [length].
  rewrite Nat.add_1_r.
  destruct (Z.of_nat (S (length (buffer w))) >=? default 20 (maxBufferSize (config w))).
  - destruct (flush_frame (with_buffer (buffer w ++ [VObj (ingest_event event w)]) w))
      as (Hb & Ht & Hr & Hc & Hk).
    rewrite Hb, Ht, Hr, Hc, Hk. cbn. repeat split; try done.
    by destruct (buffer w).
  - by cbn.
Qed.

(** X1. Captures that keep the error buffer below the threshold
    ([maxBufferSize], 20 when the configuration leaves it out) start no
    flush and send nothing; the capture that brings the buffer to the
    threshold starts a flush of the error buffer (and of the trace buffer
    when that holds something), and still leaves every captured event in
    the buffer: the flush takes them only when it is resumed. *)
Theorem capture_flushes_at_the_threshold
  (events : list ErrorEvent.t) (event : ErrorEvent.t) (w : World) :
  Z.of_nat (length (buffer w) + length events) < threshold w ->
  threshold w <= Z.of_nat (length (buffer w) + length events + 1) ->
  tasks (run (map DoCapture events) w) = tasks w /\
  requests (run (map DoCapture events) w) = requests w /\
  tasks (run (map DoCapture (events ++ [event])) w) =
    tasks w ++ [AwaitKey IngestBatch]
            ++ (if traceBuffer w is [] then [] else [AwaitKey TracesBatch]) /\
  requests (run (map DoCapture (events ++ [event])) w) = requests w /\
  length (buffer (run (map DoCapture (events ++ [event])) w)) =
    (length (buffer w) + length events + 1)%nat.
Proof.
  intros Hbelow Hreach.
  assert (forall evs w0,
            Z.of_nat (length (buffer w0) + length evs) < threshold w0 ->
            tasks (run (map DoCapture evs) w0) = tasks w0 /\
            requests (run (map DoCapture evs) w0) = requests w0 /\
            traceBuffer (run (map DoCapture evs) w0) = traceBuffer w0 /\
            config (run (map DoCapture evs) w0) = config w0 /\
            length (buffer (run (map DoCapture evs) w0)) =
              (length (buffer w0) + length evs)%nat) as Hquiet.
  { induction evs as [|ev evs IH]; intros w0 Hlt.
    - cbn. repeat split; try done; lia.
    - cbn [map]. rewrite run_cons. cbn [step].
      destruct (capture_frame ev w0) as (Hb & Ht & Hr & Hc & Hk).
      cbn [length] in Hlt.
      assert ((Z.of_nat (S (length (buffer w0))) >=? threshold w0) = false) as Hno
        by (rewrite Z.geb_leb; apply Z.leb_gt; lia).
      rewrite Hno in Hk.
      destruct (IH (capture ev w0)) as (Hk' & Hr' & Ht' & Hc' & Hb').
      { unfold threshold in *. rewrite Hc, Hb, length_app. cbn [length]. lia. }
      rewrite Hk', Hr', Ht', Hc', Hb', Hk, Hr, Ht, Hc, Hb, length_app.
      cbn [length]. repeat split; try done; lia. }
  destruct (Hquiet events w Hbelow) as (Hk & Hr & Ht & Hc & Hb).
  split; [done|]. split; [done|].
  rewrite map_app, run_app. cbn [map]. rewrite run_cons. cbn [run fold_left step].
  destruct (capture_frame event (run (map DoCapture events) w))
    as (Hb1 & Ht1 & Hr1 & Hc1 & Hk1).
  assert ((Z.of_nat (S (length (buffer (run (map DoCapture events) w))))
             >=? threshold (run (map DoCapture events) w)) = true) as Hyes.
  { unfold threshold in *. rewrite Hc, Hb, Z.geb_leb. apply Z.leb_le. lia. }
  rewrite Hyes in Hk1. rewrite Hk1, Hr1, Hb1, Hk, Hr, Ht, length_app, Hb.
  cbn [length]. repeat split; try done.
Qed.

(** X1 at the default threshold: nineteen captures start nothing, the
    twentieth starts a flush. *)
Lemma twentieth_capture_starts_a_flush :
  tasks (run (map DoCapture (replicate 19 (sample_error "e"))) sample_world) = [] /\
  tasks (run (map DoCapture (replicate 19 (sample_error "e") ++ [sample_error "last"]))
           sample_world) = [AwaitKey IngestBatch].
Proof.
  destruct (capture_flushes_at_the_threshold (replicate 19 (sample_error "e"))
              (sample_error "last") sample_world) as (Hk & _ & Hk' & _).
  - vm_compute. reflexivity.
  - vm_compute. discriminate.
  - split; [exact Hk|exact Hk'].
Defined.

Lemma resume_out_of_range (i : nat) (w : World) :
  tasks w !! i = None -> resume i w = w.
Proof. intros Hi. unfold resume. by rewrite Hi. Qed.

(** X2. A client whose two buffers are empty and that has no flush in
    flight stays exactly as it is under any number of [flush()] calls and
    resumptions: no flush starts, and nothing is handed to [fetch]. *)
Theorem flushing_nothing_sends_nothing (steps : list Step) (w : World) :
  buffer w = [] -> traceBuffer w = [] -> tasks w = [] ->
  forallb quiet steps = true ->
  run steps w = w.
Proof.
  intros Hb Ht Hk. induction steps as [|s steps IH]; [done|].
  cbn [forallb]. intros Hq. apply andb_true_iff in Hq as [Hs Hq].
  rewrite run_cons.
  assert (step s w = w) as ->; [|by apply IH].
  destruct s as [event|payload| |i]; try discriminate; cbn [step].
  - by apply flush_of_empty_buffers.
  - apply resume_out_of_range. by rewrite Hk.
Qed.

Lemma idle_client_sends_nothing :
  run [DoFlush; DoResume 0; DoFlush; DoResume 1] sample_world = sample_world.
Proof.
  apply flushing_nothing_sends_nothing; reflexivity.
Defined.

Lemma count_requested_insert (l : list Task) (i : nat) (t t' : Task) :
  l !! i = Some t ->
  (length (List.filter requested (<[i := t']> l)) +
     (if requested t then 1 else 0) =
   length (List.filter requested l) +
     (if requested t' then 1 else 0))%nat.
Proof.
  intros Hi. pose proof (lookup_lt_Some _ _ _ Hi) as Hlt.
  rewrite (insert_take_drop l i t' Hlt).
  rewrite <- (take_drop_middle l i t Hi) at 3.
  rewrite !List.filter_app, !length_app. cbn [List.filter].
  destruct (requested t), (requested t'); cbn [length]; lia.
Qed.

Lemma step_requests_count (s : Step) (w : World) :
  length (requests w) = length (List.filter requested (tasks w)) ->
  length (requests (step s w)) =
    length (List.filter requested (tasks (step s w))).
Proof.
  intros Hinv. destruct s as [event|payload| |i]; cbn [step].
  - destruct (capture_frame event w) as (_ & _ & -> & _ & ->).
    destruct (_ >=? _); [|done].
    rewrite !List.filter_app, !length_app, <- Hinv.
    destruct (traceBuffer w); cbn; lia.
  - done.
  - destruct (flush_frame w) as (_ & _ & -> & _ & ->).
    rewrite !List.filter_app, !length_app, <- Hinv.
    destruct (buffer w), (traceBuffer w); cbn; lia.
  - unfold resume. destruct (tasks w !! i) as [[e|e items|e items| |]|] eqn:Hi; try done.
    + pose proof (count_requested_insert _ i _ (AwaitSign e (pending e w)) Hi) as H.
      destruct e; cbn in H |- *; lia.
    + pose proof (count_requested_insert _ i _ (AwaitFetch e items) Hi) as H.
      cbn in H. cbn. rewrite length_app. cbn. lia.
    + pose proof (count_requested_insert _ i _ Settled Hi) as H.
      cbn in H. cbn. lia.
Qed.

(** X3. Every flush hands at most one request to [fetch], and every
    request comes from a flush: along any schedule the requests made are
    as many as the flushes that have got past their signature. *)
Theorem one_request_per_flush (steps : list Step) (w : World) :
  length (requests w) = length (List.filter requested (tasks w)) ->
  length (requests (run steps w)) =
    length (List.filter requested (tasks (run steps w))).
Proof.
  revert w. induction steps as [|s steps IH]; intros w Hinv; [done|].
  rewrite run_cons. by apply IH, step_requests_count.
Qed.

Lemma sample_flush_makes_one_request :
  length (requests (run [DoCapture (sample_error "first"); DoFlush; DoResume 0;
                         DoResume 0; DoResume 0; DoResume 0] sample_world)) = 1%nat.
Proof.
  etrans.
  - apply (one_request_per_flush
             [DoCapture (sample_error "first"); DoFlush; DoResume 0;
              DoResume 0; DoResume 0; DoResume 0] sample_world).
    reflexivity.
  - vm_compute. reflexivity.
Defined.

Lemma insert_middle {A} (l1 l2 : list A) (x y : A) (n : nat) :
  n = length l1 -> <[n := y]> (l1 ++ x :: l2) = l1 ++ y :: l2.
Proof.
  intros ->. rewrite <- (Nat.add_0_r (length l1)). by rewrite insert_app_r.
Qed.

Lemma resume_key (i : nat) (e : Endpoint) (w : World) :
  tasks w !! i = Some (AwaitKey e) ->
  tasks (resume i w) = <[i := AwaitSign e (pending e w)]> (tasks w) /\
  pending e (resume i w) = [] /\
  requests (resume i w) = requests w.
Proof. intros Hi. unfold resume. rewrite Hi. by destruct e. Qed.

Lemma resume_sign (i : nat) (e : Endpoint) (items : list Value) (w : World) :
  tasks w !! i = Some (AwaitSign e items) ->
  tasks (resume i w) = <[i := AwaitFetch e items]> (tasks w) /\
  (forall e', pending e' (resume i w) = pending e' w) /\
  requests (resume i w) = requests w ++ [(e, items)].
Proof. intros Hi. unfold resume. rewrite Hi. repeat split; by intros []. Qed.

Lemma resume_fetch (i : nat) (e : Endpoint) (items : list Value) (w : World) :
  tasks w !! i = Some (AwaitFetch e items) ->
  tasks (resume i w) = <[i := Settled]> (tasks w) /\
  (forall e', pending e' (resume i w) = pending e' w) /\
  requests (resume i w) = requests w.
Proof. intros Hi. unfold resume. rewrite Hi. repeat split; by intros []. Qed.

Lemma flush_call_starts (e : Endpoint) (w : World) :
  pending e w <> [] ->
  tasks (flush_call e w) = tasks w ++ [AwaitKey e] /\
  pending e (flush_call e w) = pending e w /\
  requests (flush_call e w) = requests w.
Proof.
  intros Hne. unfold flush_call. destruct (pending e w) eqn:Hp; [done|].
  repeat split. by destruct e.
Qed.

(** X4. Two flushes of the same buffer started before either is resumed
    both pass the emptiness test.  The one resumed first sends everything
    the buffer holds; the other, resumed after it, finds the buffer empty
    and sends a batch with no item in it: the test for an empty buffer is
    made before the wait for the key, and not again after it. *)
Theorem overlapping_flushes_send_an_empty_batch (e : Endpoint) (w : World) :
  pending e w <> [] ->
  requests (run [DoResume (length (tasks w)); DoResume (length (tasks w));
                 DoResume (S (length (tasks w))); DoResume (S (length (tasks w)))]
              (flush_call e (flush_call e w)))
  = requests w ++ [(e, pending e w); (e, [])].
Proof.
  intros Hne.
  destruct (flush_call_starts e w Hne) as (Ht1 & Hp1 & Hr1).
  set (w1 := flush_call e w) in *.
  destruct (flush_call_starts e w1) as (Ht2 & Hp2 & Hr2); [by rewrite Hp1|].
  set (w2 := flush_call e w1) in *.
  set (n := length (tasks w)).
  rewrite Ht1 in Ht2.
  cbn [run fold_left step].
  destruct (resume_key n e w2) as (Ht3 & Hp3 & Hr3).
  { rewrite Ht2, <- app_assoc. by apply list_lookup_middle. }
  set (w3 := resume n w2) in *.
  rewrite Ht2, Hp2, Hp1 in Ht3.
  rewrite <- app_assoc in Ht3. cbn [app] in Ht3. rewrite (insert_middle _ _ (AwaitKey e)) in Ht3 by done.
  destruct (resume_sign n e (pending e w) w3) as (Ht4 & Hp4 & Hr4).
  { rewrite Ht3. by apply list_lookup_middle. }
  set (w4 := resume n w3) in *.
  rewrite Ht3, (insert_middle _ _ (AwaitSign e (pending e w))) in Ht4 by done.
  destruct (resume_key (S n) e w4) as (Ht5 & Hp5 & Hr5).
  { rewrite Ht4. change (tasks w ++ ?a :: ?l) with (tasks w ++ [a] ++ l).
    rewrite app_assoc. apply list_lookup_middle. rewrite length_app. cbn. lia. }
  set (w5 := resume (S n) w4) in *.
  rewrite Hp4, Hp3, Ht4 in Ht5.
  destruct (resume_sign (S n) e [] w5) as (_ & _ & ->).
  { rewrite Ht5. rewrite insert_app_r_alt by (unfold n; lia).
    rewrite lookup_app_r by (unfold n; lia).
    by replace (S n - length (tasks w))%nat with 1%nat by (unfold n; lia). }
  rewrite Hr5, Hr4, Hr3, Hr2, Hr1. by rewrite <- app_assoc.
Qed.

Lemma overlapping_error_flushes :
  requests (run [DoCapture (sample_error "first"); DoFlush; DoFlush;
                 DoResume 0; DoResume 0; DoResume 1; DoResume 1] sample_world)
  = [(IngestBatch,
      [VObj (ingest_event (sample_error "first") sample_world)]);
     (IngestBatch, [])].
Proof.
  pose proof (overlapping_flushes_send_an_empty_batch IngestBatch
                (capture (sample_error "first") sample_world)) as H.
  apply H. vm_compute. discriminate.
Defined.

Lemma resume_key_other (i : nat) (e e' : Endpoint) (w : World) :
  tasks w !! i = Some (AwaitKey e) -> e' <> e ->
  pending e' (resume i w) = pending e' w.
Proof. intros Hi Hne. unfold resume. rewrite Hi. by destruct e, e'. Qed.

(** Three resumptions of one flush settle it, wherever it was suspended. *)
Lemma resume_thrice (k : nat) (w : World) :
  length (tasks (resume k (resume k (resume k w)))) = length (tasks w) /\
  (forall i, i <> k ->
     tasks (resume k (resume k (resume k w))) !! i = tasks w !! i) /\
  (forall t, tasks (resume k (resume k (resume k w))) !! k = Some t -> over t = true) /\
  (forall e, pending e (resume k (resume k (resume k w))) = pending e w \/
             tasks w !! k = Some (AwaitKey e) /\
             pending e (resume k (resume k (resume k w))) = []).
Proof.
  destruct (tasks w !! k) as [t|] eqn:Hk;
    [|rewrite !(resume_out_of_range k w Hk), Hk; repeat split; auto; done].
  pose proof (lookup_lt_Some _ _ _ Hk) as Hlt.
  assert (forall w1 (x : Task), length (tasks w1) = length (tasks w) ->
            tasks w1 !! k = Some x ->
            (forall i, i <> k -> tasks w1 !! i = tasks w !! i) ->
            (forall x', length (<[k := x']> (tasks w1)) = length (tasks w) /\
                        <[k := x']> (tasks w1) !! k = Some x' /\
                        forall i, i <> k -> <[k := x']> (tasks w1) !! i = tasks w !! i))
    as Hins.
  { intros w1 x Hlen _ Hoth x'. rewrite length_insert. split; [done|]. split.
    - apply list_lookup_insert_eq. lia.
    - intros i Hi. rewrite list_lookup_insert_ne by done. by apply Hoth. }
  assert (forall w3, tasks w3 !! k = Some Settled -> resume k w3 = w3) as Hset.
  { intros w3 H3. unfold resume. by rewrite H3. }
  assert (forall w2 e items,
            length (tasks w2) = length (tasks w) ->
            tasks w2 !! k = Some (AwaitFetch e items) ->
            (forall i, i <> k -> tasks w2 !! i = tasks w !! i) ->
            length (tasks (resume k w2)) = length (tasks w) /\
            tasks (resume k w2) !! k = Some Settled /\
            (forall i, i <> k -> tasks (resume k w2) !! i = tasks w !! i) /\
            (forall e', pending e' (resume k w2) = pending e' w2)) as Hfetch.
  { intros w2 e items Hlen H2 Hoth.
    destruct (resume_fetch k e items w2 H2) as (-> & Hp & _).
    destruct (Hins w2 _ Hlen H2 Hoth Settled) as (? & ? & ?). done. }
  assert (forall w1 e items,
            length (tasks w1) = length (tasks w) ->
            tasks w1 !! k = Some (AwaitSign e items) ->
            (forall i, i <> k -> tasks w1 !! i = tasks w !! i) ->
            length (tasks (resume k w1)) = length (tasks w) /\
            tasks (resume k w1) !! k = Some (AwaitFetch e items) /\
            (forall i, i <> k -> tasks (resume k w1) !! i = tasks w !! i) /\
            (forall e', pending e' (resume k w1) = pending e' w1)) as Hsign.
  { intros w1 e items Hlen H1 Hoth.
    destruct (resume_sign k e items w1 H1) as (-> & Hp & _).
    destruct (Hins w1 _ Hlen H1 Hoth (AwaitFetch e items)) as (? & ? & ?). done. }
  assert (forall w3, tasks w3 !! k = Some Failed -> resume k w3 = w3) as Hfail.
  { intros w3 H3. unfold resume. by rewrite H3. }
  destruct t as [e0|e0 items|e0 items| |].
  - destruct (resume_key k e0 w Hk) as (Ht1 & Hp1 & _).
    destruct (Hins w _ eq_refl Hk (fun _ _ => eq_refl) (AwaitSign e0 (pending e0 w)))
      as (Hl1 & Hk1 & Ho1).
    rewrite <- Ht1 in Hl1, Hk1, Ho1.
    destruct (Hsign _ _ _ Hl1 Hk1 Ho1) as (Hl2 & Hk2 & Ho2 & Hp2).
    destruct (Hfetch _ _ _ Hl2 Hk2 Ho2) as (Hl3 & Hk3 & Ho3 & Hp3).
    repeat split; [done|done|by intros t; rewrite Hk3; intros [= <-]|].
    intros e. rewrite Hp3, Hp2.
    destruct (decide (e = e0)) as [->|Hne]; [by right|left].
    by apply (resume_key_other k e0).
  - destruct (Hsign _ _ _ eq_refl Hk (fun _ _ => eq_refl)) as (Hl2 & Hk2 & Ho2 & Hp2).
    destruct (Hfetch _ _ _ Hl2 Hk2 Ho2) as (Hl3 & Hk3 & Ho3 & Hp3).
    rewrite (Hset _ Hk3).
    repeat split; [done|done|by intros t; rewrite Hk3; intros [= <-]|].
    intros e. left. by rewrite Hp3, Hp2.
  - destruct (Hfetch _ _ _ eq_refl Hk (fun _ _ => eq_refl)) as (Hl3 & Hk3 & Ho3 & Hp3).
    rewrite !(Hset _ Hk3).
    repeat split; [done|done|by intros t; rewrite Hk3; intros [= <-]|].
    intros e. left. by rewrite Hp3.
  - rewrite !(Hset _ Hk).
    repeat split; [by intros t; rewrite Hk; intros [= <-]|by left].
  - rewrite !(Hfail _ Hk).
    repeat split; [by intros t; rewrite Hk; intros [= <-]|by left].
Qed.

Lemma settle_S (n : nat) :
  settle (S n) = settle n ++ [DoResume n; DoResume n; DoResume n].
Proof.
  unfold settle. rewrite seq_S, flat_map_app. cbn. done.
Qed.

Lemma settle_quiet (n : nat) : forallb quiet (settle n) = true.
Proof.
  induction n as [|n IH]; [done|].
  rewrite settle_S, forallb_app, IH. done.
Qed.

Lemma quiet_enqueues_nothing (e : Endpoint) (steps : list Step) (w : World) :
  forallb quiet steps = true -> enqueued e steps w = [].
Proof.
  revert w. induction steps as [|s steps IH]; intros w; [done|].
  cbn [forallb enqueued]. intros Hq. apply andb_true_iff in Hq as [Hs Hq].
  rewrite (IH _ Hq). by destruct s, e.
Qed.

(** While the first [n] flushes are resumed to their end, the ones among
    them are over, nothing is added to a buffer, and a buffer that is not
    empty still has a flush waiting to take it. *)
Lemma settle_spec (n : nat) (w : World) :
  (forall e, pending e w = [] \/
             exists i, tasks w !! i = Some (AwaitKey e)) ->
  length (tasks (run (settle n) w)) = length (tasks w) /\
  (forall i t, (i < n)%nat -> tasks (run (settle n) w) !! i = Some t -> over t = true) /\
  (forall e, pending e (run (settle n) w) = [] \/
             exists i, (n <= i)%nat /\
                       tasks (run (settle n) w) !! i = Some (AwaitKey e)).
Proof.
  intros Hcov. induction n as [|n (IHl & IHs & IHc)].
  - cbn. repeat split; [lia|].
    intros e. destruct (Hcov e) as [?|[i ?]]; [by left|right; exists i; split; [lia|done]].
  - rewrite settle_S, run_app.
    set (w1 := run (settle n) w) in *.
    cbn [run fold_left step].
    destruct (resume_thrice n w1) as (Hl & Ho & Hk & Hp).
    repeat split.
    + by rewrite Hl.
    + intros i t Hi Ht. destruct (decide (i = n)) as [->|Hne]; [by apply Hk|].
      rewrite Ho in Ht by done. apply (IHs i); [lia|done].
    + intros e. destruct (Hp e) as [Heq|[_ Hnil]]; [|by left].
      rewrite Heq. destruct (IHc e) as [?|(i & Hi & Ht)]; [by left|].
      destruct (decide (i = n)) as [->|Hne].
      * destruct (Hp e) as [_|[_ Hnil]]; [|rewrite <- Heq; by left].
        destruct (tasks w1 !! n) as [t|] eqn:Hn; [|done].
        injection Ht as ->.
        left. rewrite <- Heq.
        destruct (resume_key n e w1 Hn) as (Ht1 & Hp1 & _).
        pose proof (lookup_lt_Some _ _ _ Hn) as Hlt.
        assert (tasks (resume n w1) !! n = Some (AwaitSign e (pending e w1))) as H1
          by (rewrite Ht1; by apply list_lookup_insert_eq).
        destruct (resume_sign n _ _ _ H1) as (Ht2 & Hp2 & _).
        assert (tasks (resume n (resume n w1)) !! n
                = Some (AwaitFetch e (pending e w1))) as H2.
        { rewrite Ht2. apply list_lookup_insert_eq. rewrite Ht1, length_insert. lia. }
        destruct (resume_fetch n _ _ _ H2) as (_ & Hp3 & _).
        by rewrite Hp3, Hp2.
      * right. exists i. split; [lia|]. by rewrite Ho.
Qed.

Lemma resumed_flushes_deliver (e : Endpoint) (w : World) :
  pending e (run (DoFlush :: settle (length (tasks w) + 2)) w) = [] /\
  in_flight e (run (DoFlush :: settle (length (tasks w) + 2)) w) = [] /\
  Forall (fun t => over t = true)
    (tasks (run (DoFlush :: settle (length (tasks w) + 2)) w)) /\
  sent e (run (DoFlush :: settle (length (tasks w) + 2)) w) ≡ₚ accounted e w.
Proof.
  set (n := (length (tasks w) + 2)%nat).
  assert (Forall (fun t => over t = true) (tasks (run (DoFlush :: settle n) w)) /\
          forall e', pending e' (run (DoFlush :: settle n) w) = []) as [Hall Hpend].
  { rewrite run_cons. cbn [step].
    destruct (flush_frame w) as (Hb & Htb & _ & _ & Ht).
    destruct (settle_spec n (flush w)) as (Hl & Hs & Hc).
    { intros e'. rewrite Ht.
      destruct e'; cbn [pending]; [rewrite Hb|rewrite Htb].
      - destruct (buffer w) as [|x l]; [by left|right].
        exists (length (tasks w)). cbn [app]. by apply list_lookup_middle.
      - destruct (traceBuffer w) as [|x l]; [by left|right].
        exists (length (tasks w ++ (if buffer w is [] then [] else [AwaitKey IngestBatch]))).
        rewrite app_assoc. by apply list_lookup_middle. }
    assert (length (tasks (flush w)) <= n)%nat as Hn.
    { rewrite Ht, !length_app. unfold n.
      destruct (buffer w), (traceBuffer w); cbn; lia. }
    split.
    - apply Forall_lookup_2. intros i t Hi. apply (Hs i t); [|done].
      apply lookup_lt_Some in Hi. lia.
    - intros e'. destruct (Hc e') as [?|(i & Hi & Hlk)]; [done|].
      apply lookup_lt_Some in Hlk. lia. }
  assert (in_flight e (run (DoFlush :: settle n) w) = []) as Hfl.
  { unfold in_flight. induction Hall as [|t l Ht _ IH]; [done|].
    destruct t; try discriminate; by cbn. }
  repeat split; [done|done|done|].
  pose proof (run_accounted e (DoFlush :: settle n) w) as Hacc.
  rewrite quiet_enqueues_nothing in Hacc by (cbn; apply settle_quiet).
  unfold accounted at 1 in Hacc. rewrite Hfl, Hpend, !app_nil_r in Hacc. done.
Qed.

Lemma play_does (steps : list Step) (w : World) :
  play (map Does steps) w = run steps w.
Proof.
  revert w. induction steps as [|s steps IH]; intros w; [done|]. cbn. apply IH.
Qed.

Lemma drive_fulfilled (fulfilled : nat -> bool) (n : nat) :
  (forall i, (i < n)%nat -> fulfilled i = true) ->
  drive fulfilled n = map Does (settle n).
Proof.
  intros Hall. unfold drive, settle. induction n as [|n IH]; [done|].
  rewrite seq_S, !flat_map_app, map_app, IH by (intros i Hi; apply Hall; lia).
  cbn. by rewrite (Hall n) by lia.
Qed.

(** X5. A flush delivers when the promises it awaits are fulfilled: after
    [flush()] is called and every flush has been taken to its end with the
    key imported, the body signed and the request answered or refused, both
    buffers are empty, no flush holds a batch, every flush is over, and the
    items handed to [fetch] are exactly the items that had been sent, taken
    or buffered before, each once. *)
Theorem flush_delivers_everything
  (fulfilled : nat -> bool) (e : Endpoint) (w : World) :
  (forall i, (i < length (tasks w) + 2)%nat -> fulfilled i = true) ->
  pending e (play (Does DoFlush :: drive fulfilled (length (tasks w) + 2)) w) = [] /\
  in_flight e (play (Does DoFlush :: drive fulfilled (length (tasks w) + 2)) w) = [] /\
  Forall (fun t => over t = true)
    (tasks (play (Does DoFlush :: drive fulfilled (length (tasks w) + 2)) w)) /\
  sent e (play (Does DoFlush :: drive fulfilled (length (tasks w) + 2)) w)
    ≡ₚ accounted e w.
Proof.
  intros Hall. rewrite (drive_fulfilled _ _ Hall).
  change (Does DoFlush :: map Does (settle (length (tasks w) + 2)))
    with (map Does (DoFlush :: settle (length (tasks w) + 2))).
  rewrite play_does. apply resumed_flushes_deliver.
Qed.

Lemma sample_flush_delivers :
  sent IngestBatch
    (play (Does DoFlush :: drive (fun _ => true) 2)
       (capture (sample_error "first") sample_world))
  ≡ₚ [VObj (ingest_event (sample_error "first") sample_world)].
Proof.
  apply (flush_delivers_everything (fun _ => true) IngestBatch
           (capture (sample_error "first") sample_world)).
  reflexivity.
Defined.

(** ** Delivery: the order of what is sent *)

Lemma run_of_app (batch all more : list Value) :
  run_of batch all -> run_of batch (all ++ more).
Proof.
  intros (before & after & ->). exists before, (after ++ more).
  by rewrite <- !app_assoc.
Qed.

Lemma elem_of_insert_inv {A} (l : list A) (i : nat) (x y : A) :
  x ∈ <[i := y]> l -> x = y \/ x ∈ l.
Proof.
  revert i. induction l as [|a l IH]; intros [|i]; cbn; intros H;
    try (by right).
  - apply elem_of_cons in H as [->|H]; [by left|right; by apply list_elem_of_further].
  - apply elem_of_cons in H as [->|H]; [right; apply list_elem_of_here|].
    destruct (IH _ H); [by left|right; by apply list_elem_of_further].
Qed.

Lemma flush_call_in_order (e e' : Endpoint) (all : list Value) (w : World) :
  in_order e all w -> in_order e all (flush_call e' w).
Proof.
  intros (Hsuf & Htk & Hrq).
  destruct (flush_call_frame e' w) as (Hb & Htb & Hr & _ & Ht).
  assert (pending e (flush_call e' w) = pending e w) as Hp
    by (destruct e; cbn [pending]; done).
  unfold in_order. rewrite Hp, Hr, Ht. repeat split; [done| |done].
  intros items Hin. apply elem_of_app in Hin as [Hin|Hin]; [by apply Htk|].
  destruct (pending e' w); [by apply elem_of_nil in Hin|].
  apply list_elem_of_singleton in Hin. discriminate.
Qed.

Lemma step_in_order (e : Endpoint) (all : list Value) (s : Step) (w : World) :
  in_order e all w -> in_order e (all ++ enqueues e s w) (step s w).
Proof.
  intros Hord. destruct s as [event|payload| |i]; cbn [step].
  - assert (in_order e (all ++ enqueues e (DoCapture event) w)
              (with_buffer (buffer w ++ [VObj (ingest_event event w)]) w)) as Hpush.
    { destruct Hord as ((before & ->) & Htk & Hrq). repeat split.
      - exists before. destruct e; cbn; by rewrite <- ?app_assoc, ?app_nil_r.
      - intros items Hin. by apply run_of_app, Htk.
      - intros items Hin. by apply run_of_app, Hrq. }
    unfold capture. cbn zeta.
    match goal with |- context [if ?c then _ else _] => destruct c end; [|done].
    unfold flush, _flushTraces, _flushErrors. by do 2 apply flush_call_in_order.
  - destruct Hord as ((before & ->) & Htk & Hrq). repeat split.
    + exists before. destruct e; cbn; by rewrite <- ?app_assoc, ?app_nil_r.
    + intros items Hin. by apply run_of_app, Htk.
    + intros items Hin. by apply run_of_app, Hrq.
  - cbn [enqueues]. destruct e; rewrite app_nil_r;
      unfold flush, _flushTraces, _flushErrors; by do 2 apply flush_call_in_order.
  - assert (enqueues e (DoResume i) w = []) as -> by (by destruct e).
    rewrite app_nil_r.
    destruct Hord as (Hsuf & Htk & Hrq).
    destruct (tasks w !! i) as [[e0|e0 items0|e0 items0| |]|] eqn:Hi.
    + destruct (resume_key i e0 w Hi) as (Ht & Hp & Hr).
      unfold in_order. rewrite Ht, Hr. repeat split; [| |done].
      * destruct (decide (e = e0)) as [->|Hne].
        -- rewrite Hp. exists all. by rewrite app_nil_r.
        -- by rewrite (resume_key_other i e0 e w Hi Hne).
      * intros items Hin. apply elem_of_insert_inv in Hin as [Heq|Hin]; [|by apply Htk].
        injection Heq as -> ->. destruct Hsuf as (before & ->).
        exists before, []. by rewrite app_nil_r.
    + destruct (resume_sign i e0 items0 w Hi) as (Ht & Hp & Hr).
      unfold in_order. rewrite Ht, Hr, Hp. repeat split; [done| |].
      * intros items Hin. apply elem_of_insert_inv in Hin as [Heq|Hin]; [done|by apply Htk].
      * intros items Hin. apply elem_of_app in Hin as [Hin|Hin]; [by apply Hrq|].
        apply list_elem_of_singleton in Hin. injection Hin as -> ->.
        apply Htk. by apply list_elem_of_lookup_2 with i.
    + destruct (resume_fetch i e0 items0 w Hi) as (Ht & Hp & Hr).
      unfold in_order. rewrite Ht, Hr, Hp. repeat split; [done| |done].
      intros items Hin. apply elem_of_insert_inv in Hin as [Heq|Hin]; [done|by apply Htk].
    + unfold resume. rewrite Hi. done.
    + unfold resume. rewrite Hi. done.
    + unfold resume. rewrite Hi. done.
Qed.

Lemma run_in_order (e : Endpoint) (all : list Value) (steps : list Step) (w : World) :
  in_order e all w -> in_order e (all ++ enqueued e steps w) (run steps w).
Proof.
  revert all w. induction steps as [|s steps IH]; intros all w Hord.
  - cbn. by rewrite app_nil_r.
  - rewrite run_cons. cbn [enqueued]. rewrite app_assoc. by apply IH, step_in_order.
Qed.

(** X6. Batches keep the order of arrival.  On a client that starts with
    no flush in flight and nothing sent, every batch handed to [fetch],
    along any schedule, is a run of consecutive items of what was buffered
    and enqueued, in the order of their arrival; and what is still buffered
    is the end of that sequence. *)
Theorem batches_keep_the_order_of_arrival
  (e : Endpoint) (steps : list Step) (w : World) :
  tasks w = [] -> requests w = [] ->
  (forall items, (e, items) ∈ requests (run steps w) ->
     run_of items (pending e w ++ enqueued e steps w)) /\
  exists before,
    pending e w ++ enqueued e steps w = before ++ pending e (run steps w).
Proof.
  intros Ht Hr.
  destruct (run_in_order e (pending e w) steps w) as (Hsuf & _ & Hrq).
  - repeat split.
    + by exists [].
    + intros items Hin. rewrite Ht in Hin. by apply elem_of_nil in Hin.
    + intros items Hin. rewrite Hr in Hin. by apply elem_of_nil in Hin.
  - done.
Qed.

(** ** Tracing: what is buffered, and what a payload holds *)

Lemma trace_op_frame (host : Host) (op : TraceOp) (st : Trace.t * World) :
  tasks (snd (trace_op host op st)) = tasks (snd st) /\
  requests (snd (trace_op host op st)) = requests (snd st) /\
  buffer (snd (trace_op host op st)) = buffer (snd st) /\
  exists payloads,
    traceBuffer (snd (trace_op host op st)) = traceBuffer (snd st) ++ payloads /\
    length payloads = length (List.filter is_end [op]).
Proof.
  destruct st as [tr w], op as [opts|r opts|opts|ms]; cbn [trace_op fst snd].
  - repeat split. exists []. by rewrite app_nil_r.
  - unfold span_end. destruct (heap w !! r); repeat split;
      exists []; by rewrite app_nil_r.
  - repeat split. by eexists [_].
  - repeat split. exists []. by rewrite app_nil_r.
Qed.

(** X7. Working with a trace never starts a flush and never sends
    anything: starting spans, ending them and ending the trace, in any
    number and order, leave the flushes, the requests and the error buffer
    as they were, and add to the trace buffer one payload for each end of
    the trace, after what it held, however many payloads that makes. *)
Theorem tracing_only_fills_the_trace_buffer
  (host : Host) (ops : list TraceOp) (tr : Trace.t) (w : World) :
  tasks (snd (trace_ops host ops (tr, w))) = tasks w /\
  requests (snd (trace_ops host ops (tr, w))) = requests w /\
  buffer (snd (trace_ops host ops (tr, w))) = buffer w /\
  exists payloads,
    traceBuffer (snd (trace_ops host ops (tr, w))) = traceBuffer w ++ payloads /\
    length payloads = length (List.filter is_end ops).
Proof.
  change w with (snd (tr, w)) at 2 4 6 8. generalize (tr, w). clear tr w.
  induction ops as [|op ops IH]; intros st.
  - repeat split. exists []. by rewrite app_nil_r.
  - rewrite trace_ops_cons.
    destruct (IH (trace_op host op st)) as (-> & -> & -> & later_ & -> & Hl).
    destruct (trace_op_frame host op st) as (-> & -> & -> & first & -> & Hf).
    repeat split. exists (first ++ later_). split; [by rewrite app_assoc|].
    rewrite length_app, Hl, Hf. cbn [List.filter].
    destruct (is_end op); cbn [length]; lia.
Qed.

Lemma spans_toJSON_snoc (h : list Span.t) (refs : list SpanRef) (r : SpanRef) (s : Span.t) :
  h !! r = Some s ->
  Trace.spans_toJSON h (refs ++ [r]) = Trace.spans_toJSON h refs ++ [Span.toJSON s].
Proof.
  intros Hr. unfold Trace.spans_toJSON. rewrite omap_app. cbn. by rewrite Hr.
Qed.

(** X8. A payload is taken when the trace ends.  A span that is still
    open at that moment is delivered without status, latency, token counts,
    cost or output (all [null]); ending the span afterwards changes the
    span, and leaves the payload already buffered as it was. *)
Theorem span_ended_after_its_trace_is_delivered_open
  (host : Host) (sopts : SpanOptions.t) (eopts : TraceEndOptions.t)
  (lopts : SpanEndOptions.t) (tr : Trace.t) (w : World) :
  let started := Trace.startSpan host sopts tr w in
  let span := snd (snd started) in
  let ended := Trace.end_ eopts (fst (snd started)) (fst started) in
  let w' := span_end span lopts (fst ended) in
  exists payload earlier span_json,
    traceBuffer (fst ended) = traceBuffer w ++ [payload] /\
    traceBuffer w' = traceBuffer w ++ [payload] /\
    Reflect_get payload "spans" = Returns (VArr (earlier ++ [span_json])) /\
    Reflect_get span_json "status" = Returns VNull /\
    Reflect_get span_json "latency_ms" = Returns VNull /\
    Reflect_get span_json "input_tokens" = Returns VNull /\
    Reflect_get span_json "output_tokens" = Returns VNull /\
    Reflect_get span_json "cost" = Returns VNull /\
    Reflect_get span_json "output" = Returns VNull /\
    exists s, heap w' !! span = Some s /\
              Span.status s = Some (SpanEndOptions.status lopts).
Proof.
  cbn zeta. unfold Trace.startSpan. cbn zeta. cbn [fst snd].
  set (s := Span.new _ _ _).
  set (w1 := with_rng _ _). set (tr1 := Trace.with_spans _ _).
  assert (heap w1 !! length (heap w) = Some s) as Hs.
  { cbn. by rewrite lookup_app_r, Nat.sub_diag. }
  destruct (Trace_end_frame eopts tr1 w1) as (Hheap & Hbuf & _ & Hspans & _).
  destruct (span_end_frame (length (heap w)) lopts (fst (Trace.end_ eopts tr1 w1)))
    as (_ & Hbuf' & _).
  eexists _, (Trace.spans_toJSON (heap w1) (Trace.spans tr)), (Span.toJSON s).
  split; [exact Hbuf|]. split; [by rewrite Hbuf'|].
  split.
  { cbn -[Trace.spans_toJSON]. by rewrite (spans_toJSON_snoc _ _ _ s Hs). }
  do 6 (split; [done|]).
  exists (Span.end_ (now (fst (Trace.end_ eopts tr1 w1))) lopts s).
  split; [|done]. apply span_end_lookup. by rewrite Hheap.
Qed.

(** X9. Nothing stops a trace from being ended again: each [end]
    delivers a payload of its own, under the same id and with the same
    spans; the second carries the later status and end time, and keeps the
    output of the first unless it is given one itself. *)
Theorem ending_a_trace_twice_delivers_it_twice
  (o1 o2 : TraceEndOptions.t) (tr : Trace.t) (w : World) (ms : N) :
  let first := Trace.end_ o1 tr w in
  let second := Trace.end_ o2 (snd first) (later (Z.of_N ms) (fst first)) in
  exists p1 p2,
    traceBuffer (fst second) = traceBuffer w ++ [p1; p2] /\
    Reflect_get p1 "id" = Returns (VStr (Trace.id tr)) /\
    Reflect_get p2 "id" = Returns (VStr (Trace.id tr)) /\
    Reflect_get p2 "spans" = Reflect_get p1 "spans" /\
    Reflect_get p1 "status" = Returns (VStr (TraceStatus_literal (TraceEndOptions.status o1))) /\
    Reflect_get p2 "status" = Returns (VStr (TraceStatus_literal (TraceEndOptions.status o2))) /\
    Reflect_get p1 "ended_at" = Returns (VInt (now w)) /\
    Reflect_get p2 "ended_at" = Returns (VInt (now w + Z.of_N ms)) /\
    Reflect_get p2 "output" =
      (if TraceEndOptions.output o2 is VUndefined then Reflect_get p1 "output"
       else Returns (js_coalesce (TraceEndOptions.output o2) VNull)).
Proof.
  cbn zeta. eexists _, _. split.
  { cbn. rewrite <- app_assoc. reflexivity. }
  repeat split. cbn. by destruct (TraceEndOptions.output o2).
Qed.

(** ** Pricing *)

(** X10. An override set with [setModelCosts] under a name other than
    [__proto__] concerns its model alone: the rates every other model
    resolves to stay what they were, and a second override of the same
    model replaces the first. *)
Theorem setModelCosts_concerns_one_model
  (host : Host) (name : string) (first second : Rates) (model : Value) (w : World) :
  name <> "__proto__" ->
  resolve_rates host (setModelCosts name second (setModelCosts name first w)) (VStr name)
    = Entry second /\
  (ToString host model <> name ->
   resolve_rates host (setModelCosts name first w) model = resolve_rates host w model).
Proof.
  intros Hkey. split; [by apply setModelCosts_takes_precedence|].
  intros Hne. unfold resolve_rates, setModelCosts, store, index. cbn zeta.
  destruct (String.eqb_spec name "__proto__") as [->|_]; [done|].
  cbn [_modelCosts with_modelCosts entries replaced].
  by rewrite lookup_insert_ne.
Qed.

Lemma override_of_one_model_leaves_another :
  resolve_rates sample_host
    (setModelCosts "gpt-4o" {| input := 3; output := 4 |}
       (setModelCosts "gpt-4o" {| input := 1; output := 2 |} sample_world))
    (VStr "gpt-4o")
  = Entry {| input := 3; output := 4 |} /\
  resolve_rates sample_host
    (setModelCosts "gpt-4o" {| input := 1; output := 2 |} sample_world)
    (VStr "kimi-k2")
  = resolve_rates sample_host sample_world (VStr "kimi-k2").
Proof.
  destruct (setModelCosts_concerns_one_model sample_host "gpt-4o"
              {| input := 1; output := 2 |} {| input := 3; output := 4 |}
              (VStr "kimi-k2") sample_world) as [Hsame Hother].
  - discriminate.
  - split; [exact Hsame|]. apply Hother. discriminate.
Defined.

(** An override under [__proto__] is no entry: it puts the rates in place
    of the prototype of the table, and their two members are then found
    under the names "input" and "output", as numbers that hold no rates. *)
Example override_named_proto_replaces_the_prototype :
  resolve_rates sample_host
    (setModelCosts "__proto__" {| input := 1; output := 2 |} sample_world)
    (VStr "input")
  = Rate 1 /\
  compute_cost sample_host (Rate 1) (VNum 100) (VNum 50) = VNum PrimFloat.nan.
Proof. split; vm_compute; reflexivity. Qed.

(** ** Wrapping a wrapper *)





(** Once its trace and span are open, a traced call delivers exactly one
    trace after the provider function has run, whatever that function did,
    and hands on the function's outcome. *)
Lemma traced_call_delivers (host : Host) (k : TracedCall) (fn : list Value -> Run Value)
  (args : list Value) (w w1 w2 : World) (model : Value) (trace : Trace.t)
  (span : SpanRef) (out : Outcome Value) :
  traced_open host k args w = (w1, Returns (model, trace, span)) ->
  fn args w1 = (w2, out) ->
  exists w3 payload,
    traced_call host k fn args w = (w3, out) /\
    traceBuffer w3 = traceBuffer w2 ++ [payload] /\
    Reflect_get payload "id" = Returns (VStr (Trace.id trace)) /\
    Reflect_get payload "status" =
      Returns (VStr (if out is Returns _ then "completed" else "error")).
Proof.
  intros Hopen Hfn.
  rewrite (traced_call_after_open host k fn args w w1 model trace span Hopen).
  unfold try_traced. rewrite Hfn. destruct out as [response|err].
  - destruct (output_reader_returns k response) as [output Hread].
    destruct (record_success_spec host _ _ _ model trace span response output w2
                (input_key_plain k) (output_key_plain k) Hread)
      as (usage & prompt & completion & _ & _ & _ & ->).
    eexists _, _. split; [reflexivity|].
    destruct (Trace_end_frame
                {| TraceEndOptions.status := completed; TraceEndOptions.output := output |}
                trace
                (span_end span
                   {| SpanEndOptions.inputTokens := js_or prompt (VNum 0%float);
                      SpanEndOptions.outputTokens := js_or completion (VNum 0%float);
                      SpanEndOptions.cost :=
                        compute_cost host (resolve_rates host w2 model)
                          (js_or prompt (VNum 0%float)) (js_or completion (VNum 0%float));
                      SpanEndOptions.status := SpanOk;
                      SpanEndOptions.errorMessage := VUndefined;
                      SpanEndOptions.output := output;
                      SpanEndOptions.timeToFirstTokenMs := VUndefined |} w2))
      as (_ & -> & _).
    destruct (span_end_frame span
                {| SpanEndOptions.inputTokens := js_or prompt (VNum 0%float);
                   SpanEndOptions.outputTokens := js_or completion (VNum 0%float);
                   SpanEndOptions.cost :=
                     compute_cost host (resolve_rates host w2 model)
                       (js_or prompt (VNum 0%float)) (js_or completion (VNum 0%float));
                   SpanEndOptions.status := SpanOk;
                   SpanEndOptions.errorMessage := VUndefined;
                   SpanEndOptions.output := output;
                   SpanEndOptions.timeToFirstTokenMs := VUndefined |} w2)
      as (_ & -> & _).
    by repeat split.
  - destruct (record_failure_spec host trace span err w2) as (message & _ & ->).
    eexists _, _. split; [reflexivity|].
    destruct (Trace_end_frame
                {| TraceEndOptions.status := TraceError; TraceEndOptions.output := VUndefined |}
                trace
                (span_end span
                   {| SpanEndOptions.inputTokens := VUndefined;
                      SpanEndOptions.outputTokens := VUndefined;
                      SpanEndOptions.cost := VUndefined;
                      SpanEndOptions.status := SpanError;
                      SpanEndOptions.errorMessage := js_or message (VStr (ToString host err));
                      SpanEndOptions.output := VUndefined;
                      SpanEndOptions.timeToFirstTokenMs := VUndefined |} w2))
      as (_ & -> & _).
    destruct (span_end_frame span
                {| SpanEndOptions.inputTokens := VUndefined;
                   SpanEndOptions.outputTokens := VUndefined;
                   SpanEndOptions.cost := VUndefined;
                   SpanEndOptions.status := SpanError;
                   SpanEndOptions.errorMessage := js_or message (VStr (ToString host err));
                   SpanEndOptions.output := VUndefined;
                   SpanEndOptions.timeToFirstTokenMs := VUndefined |} w2)
      as (_ & -> & _).
    by repeat split.
Qed.

(** X12. A client wrapped twice is traced twice.  On a client whose
    [chat], [completions] and [create] members are not fixed, reading
    [chat.completions.create] through a wrapper of a wrapper gives the outer
    traced call around the inner one, around the client's own function bound
    to the client's own [completions] object; a call opens the outer trace,
    then the inner one, runs the function once, and delivers first the inner
    trace and then the outer one, both with the status of the one outcome,
    which is handed on unchanged. *)
Theorem wrapping_twice_traces_twice
  (host : Host) (outer inner : string) (client chat completions create this : Value)
  (args : list Value) (w w1 w2 w3 : World)
  (m1 m2 : Value) (t1 t2 : Trace.t) (s1 s2 : SpanRef) (out : Outcome Value) :
  is_object client = true ->
  Reflect_get client "chat" = Returns chat -> is_object chat = true ->
  Reflect_get chat "completions" = Returns completions -> is_object completions = true ->
  Reflect_get completions "create" = Returns create -> is_function create = true ->
  fixed_member client "chat" = false ->
  fixed_member chat "completions" = false ->
  fixed_member completions "create" = false ->
  openai_open host outer "chat.completions.create" args w = (w1, Returns (m1, t1, s1)) ->
  openai_open host inner "chat.completions.create" args w1 = (w2, Returns (m2, t2, s2)) ->
  call host create completions args w2 = (w3, out) ->
  exists f w5 first second,
    read_path (VProxy (HOpenAI outer) (VProxy (HOpenAI inner) client))
      ["chat"; "completions"; "create"] = Returns f /\
    call host f this args w = (w5, out) /\
    traceBuffer w5 = traceBuffer w3 ++ [first; second] /\
    Reflect_get first "id" = Returns (VStr (Trace.id t2)) /\
    Reflect_get second "id" = Returns (VStr (Trace.id t1)) /\
    Reflect_get first "status" =
      Returns (VStr (if out is Returns _ then "completed" else "error")) /\
    Reflect_get second "status" =
      Returns (VStr (if out is Returns _ then "completed" else "error")).
Proof.
  intros Hclient Hchat Hochat Hcomp Hocomp Hcreate Hfun Hf1 Hf2 Hf3 Houter Hinner Hfn.
  set (ki := OpenAICall inner "chat.completions.create").
  set (ko := OpenAICall outer "chat.completions.create").
  destruct (traced_call_delivers host ki (call host create completions) args
              w1 w2 w3 m2 t2 s2 out Hinner Hfn) as (w4 & first & Hcall1 & Hbuf1 & Hid1 & Hst1).
  destruct (traced_call_delivers host ko
              (traced_call host ki (call host create completions)) args
              w w1 w4 m1 t1 s1 out Houter Hcall1)
    as (w5 & second & Hcall2 & Hbuf2 & Hid2 & Hst2).
  exists (VTraced ko (VTraced ki create completions)
            (VProxy (HCompletions inner) completions)), w5, first, second.
  split.
  { cbn [read_path]. unfold js_get. cbn [nullish Reflect_get fixed_member].
    rewrite Hchat, Hf1. cbn. unfold new_Proxy. rewrite Hochat. cbn.
    rewrite Hcomp, Hf2. cbn. unfold new_Proxy. rewrite Hocomp. cbn.
    rewrite Hcreate, Hf3. cbn. by rewrite Hfun. }
  split; [exact Hcall2|].
  split; [by rewrite Hbuf2, Hbuf1, <- app_assoc|]. done.
Qed.

(** X12 at the sample client, wrapped twice. *)
Lemma sample_client_wrapped_twice :
  exists f w5,
    read_path (VProxy (HOpenAI "openai") sample_wrapped)
      ["chat"; "completions"; "create"] = Returns f /\
    call sample_host f VUndefined [sample_request] sample_world
      = (w5, Returns sample_response) /\
    length (traceBuffer w5) = 2%nat.
Proof.
  edestruct (wrapping_twice_traces_twice sample_host "openai" "openai" sample_client
               (VObj [ ("completions", VObj [("create", VFun 0)]);
                       ("version", VStr "v1") ])
               (VObj [("create", VFun 0)]) (VFun 0) VUndefined
               [sample_request] sample_world)
    as (f & w5 & first & second & Hread & Hcall & Hbuf & _).
  - reflexivity.
  - reflexivity.
  - reflexivity.
  - reflexivity.
  - reflexivity.
  - reflexivity.
  - reflexivity.
  - reflexivity.
  - reflexivity.
  - reflexivity.
  - vm_compute. reflexivity.
  - vm_compute. reflexivity.
  - vm_compute. reflexivity.
  - exists f, w5. split; [exact Hread|]. split; [exact Hcall|].
    rewrite Hbuf. reflexivity.
Defined.

(** X6 on a schedule with two flushes. *)
Lemma sample_batches_keep_the_order :
  (forall items,
     (IngestBatch, items) ∈
       requests (run [DoCapture (sample_error "a"); DoFlush; DoCapture (sample_error "b");
                      DoResume 0; DoCapture (sample_error "c"); DoFlush;
                      DoResume 1; DoResume 1; DoResume 0] sample_world) ->
     run_of items
       (pending IngestBatch sample_world ++
        enqueued IngestBatch
          [DoCapture (sample_error "a"); DoFlush; DoCapture (sample_error "b");
           DoResume 0; DoCapture (sample_error "c"); DoFlush;
           DoResume 1; DoResume 1; DoResume 0] sample_world)) /\
  exists before,
    pending IngestBatch sample_world ++
    enqueued IngestBatch
      [DoCapture (sample_error "a"); DoFlush; DoCapture (sample_error "b");
       DoResume 0; DoCapture (sample_error "c"); DoFlush;
       DoResume 1; DoResume 1; DoResume 0] sample_world
    = before ++
      pending IngestBatch
        (run [DoCapture (sample_error "a"); DoFlush; DoCapture (sample_error "b");
              DoResume 0; DoCapture (sample_error "c"); DoFlush;
              DoResume 1; DoResume 1; DoResume 0] sample_world).
Proof.
  apply batches_keep_the_order_of_arrival; reflexivity.
Defined.

(** ** The signature *)

Lemma hex_of_byte (b : Byte.byte) :
  exists c1 c2 hi lo,
    padStart 2 "0" (toString16 (Byte.to_N b)) = String c1 (String c2 "") /\
    digit_value c1 = Some hi /\ digit_value c2 = Some lo /\
    Byte.of_N (16 * hi + lo)%N = Some b.
Proof.
  destruct b; do 4 eexists; (split; [vm_compute; reflexivity|]);
    (split; [vm_compute; reflexivity|]); (split; [vm_compute; reflexivity|]);
    vm_compute; reflexivity.
Qed.

Lemma append_cons (c : Ascii.ascii) (s t : string) :
  String c s +:+ t = String c (s +:+ t).
Proof. reflexivity. Qed.

Lemma append_empty_l (s : string) : "" +:+ s = s.
Proof. reflexivity. Qed.

Lemma append_empty_r (s : string) : s +:+ "" = s.
Proof. induction s as [|c s IH]; [done|]. by rewrite append_cons, IH. Qed.

Lemma concat_empty_cons (x : string) (xs : list string) :
  String.concat "" (x :: xs) = x +:+ String.concat "" xs.
Proof.
  destruct xs as [|y ys]; cbn [String.concat].
  - by rewrite append_empty_r.
  - by rewrite append_empty_l.
Qed.

(** X13. The signature is written two lower-case hexadecimal digits a
    byte, bytes below 16 with a leading zero: its length is twice the number
    of bytes, and reading the digits back two by two gives the bytes again,
    so that different signatures are never written alike. *)
Theorem signature_is_written_two_digits_a_byte (signature : list Byte.byte) :
  String.length (hex_of_signature signature) = (2 * length signature)%nat /\
  bytes_of_hex (hex_of_signature signature) = Some signature.
Proof.
  unfold hex_of_signature. induction signature as [|b rest [IHl IHr]]; [done|].
  cbn [map]. rewrite concat_empty_cons.
  destruct (hex_of_byte b) as (c1 & c2 & hi & lo & -> & H1 & H2 & Hb).
  rewrite !append_cons, append_empty_l.
  cbn [String.length bytes_of_hex].
  rewrite IHl, H1, H2. cbn [mbind option_bind]. rewrite Hb. cbn [option_bind].
  rewrite IHr. split; [cbn; lia|done].
Qed.

(** ** The stack of a captured error *)

Lemma substring_0_length (n : nat) (s : string) :
  String.length (String.substring 0 n s) = Nat.min n (String.length s).
Proof.
  revert n. induction s as [|c s IH]; intros [|n]; cbn; try done. by rewrite IH.
Qed.

Lemma substring_0_prefix (n : nat) (s : string) :
  String.prefix (String.substring 0 n s) s = true.
Proof.
  revert n. induction s as [|c s IH]; intros [|n]; cbn; try done.
  destruct (Ascii.ascii_dec c c); [apply IH|done].
Qed.

Lemma substring_0_all (n : nat) (s : string) :
  (String.length s <= n)%nat -> String.substring 0 n s = s.
Proof.
  revert n. induction s as [|c s IH]; intros [|n]; cbn; try done; try lia.
  intros Hle. rewrite IH; [done|lia].
Qed.

Lemma stored_stack (event : ErrorEvent.t) (w : World) (s : string) :
  ErrorEvent.stack event = Some s -> s <> "" ->
  own_property (ingest_event event w) "stack" = VStr (String.substring 0 8192 s).
Proof.
  intros Hs Hne. unfold ingest_event. cbn zeta.
  rewrite !own_property_assign_if, Hs.
  cbn [optional truthy String.eqb Ascii.eqb Bool.eqb andb].
  rewrite ?andb_false_r.
  destruct (String.eqb_spec s "") as [->|_]; [done|]. reflexivity.
Qed.

(** X14. The stack stored with a captured error is the beginning of the
    stack given, never longer than 8192 characters, and the whole of it when
    it is no longer than that. *)
Theorem stored_stack_is_the_start_of_the_stack
  (event : ErrorEvent.t) (w : World) (s : string) :
  ErrorEvent.stack event = Some s -> s <> "" ->
  exists kept,
    own_property (ingest_event event w) "stack" = VStr kept /\
    String.length kept = Nat.min 8192 (String.length s) /\
    String.prefix kept s = true /\
    ((String.length s <= 8192)%nat -> kept = s).
Proof.
  intros Hs Hne. exists (String.substring 0 8192 s).
  split; [by apply stored_stack|]. split; [apply substring_0_length|].
  split; [apply substring_0_prefix|apply substring_0_all].
Qed.

Lemma short_stack_is_stored_whole :
  exists kept,
    own_property
      (ingest_event
         {| ErrorEvent.errorType := "TypeError";
            ErrorEvent.message := "x is not a function";
            ErrorEvent.route := None;
            ErrorEvent.stack := Some "TypeError: x is not a function at main.js:1:1";
            ErrorEvent.httpStatus := None;
            ErrorEvent.requestId := None;
            ErrorEvent.userIdHash := None;
            ErrorEvent.metadata := None |} sample_world) "stack" = VStr kept /\
    String.length kept = 45%nat.
Proof.
  edestruct (stored_stack_is_the_start_of_the_stack
               {| ErrorEvent.errorType := "TypeError";
                  ErrorEvent.message := "x is not a function";
                  ErrorEvent.route := None;
                  ErrorEvent.stack := Some "TypeError: x is not a function at main.js:1:1";
                  ErrorEvent.httpStatus := None;
                  ErrorEvent.requestId := None;
                  ErrorEvent.userIdHash := None;
                  ErrorEvent.metadata := None |} sample_world)
    as (kept & Hkept & Hlen & _).
  - reflexivity.
  - discriminate.
  - exists kept. split; [exact Hkept|]. rewrite Hlen. reflexivity.
Defined.

(** ** Provider detection *)

Lemma PROVIDER_MAP_names_are_truthy (hostname provider : string) :
  PROVIDER_MAP !! hostname = Some provider -> truthy (VStr provider) = true.
Proof.
  intros Hl. unfold PROVIDER_MAP in Hl. apply elem_of_list_to_map_2 in Hl.
  repeat (apply elem_of_cons in Hl as [[= _ ->]|Hl]; [done|]).
  by apply elem_of_nil in Hl.
Qed.

(** X15. A client whose [baseURL] is a non-empty string is named by it
    alone, whatever its [_options] hold: "unknown" when the string is not a
    URL; otherwise the provider [PROVIDER_MAP] lists for the host of the
    URL; for a host the map does not list, the host name itself, unless it
    is the name of a member the map inherits as a plain object, and then
    that member, which is no name at all. *)
Theorem detectProvider_goes_by_the_base_url
  (host : Host) (client : Value) (url : string) :
  opt_get client "baseURL" = Returns (VStr url) -> url <> "" ->
  detectProvider host client =
    match URL_hostname host url with
    | Some hostname =>
        match PROVIDER_MAP !! hostname with
        | Some provider => Named provider
        | None => if inherited hostname then Inherited hostname else Named hostname
        end
    | None => Named "unknown"
    end.
Proof.
  intros Hget Hne. unfold detectProvider. rewrite Hget.
  cbn [mbind Outcome_bind truthy].
  destruct (String.eqb_spec url "") as [->|_]; [done|].
  cbn [negb mret Outcome_ret mbind Outcome_bind ToString].
  destruct (URL_hostname host url) as [hostname|]; [|done].
  destruct (PROVIDER_MAP !! hostname) as [provider|] eqn:Hp; [|done].
  pose proof (PROVIDER_MAP_names_are_truthy hostname provider Hp) as Ht.
  cbn [truthy] in Ht. by rewrite Ht.
Qed.

Lemma sample_client_is_an_openai_client :
  detectProvider sample_host sample_client = Named "openai".
Proof.
  etrans.
  - apply (detectProvider_goes_by_the_base_url sample_host sample_client
             "https://api.openai.com/v1"); [reflexivity|discriminate].
  - vm_compute. reflexivity.
Defined.

(** A client whose host is named "constructor" has for provider the
    function every object inherits under that name: its traces are named
    after the text of that function, and the provider of their spans, a
    function, is left out when the span is written. *)
Example client_of_a_host_named_constructor :
  detectProvider sample_host (VObj [("baseURL", VStr "https://constructor/v1")])
    = Inherited "constructor" /\
  exists w1 model trace span s,
    openai_open sample_host (Inherited "constructor") "chat.completions.create"
      [sample_request] sample_world = (w1, Returns (model, trace, span)) /\
    Trace.name trace = "function () { [native code] }.chat.completions.create" /\
    heap w1 !! span = Some s /\
    Span.provider s = VFun 100 /\
    json_omitted (Span.provider s) = true.
Proof.
  split; [vm_compute; reflexivity|].
  eexists _, _, _, _, _. split; [vm_compute; reflexivity|]. by repeat split.
Qed.

(** ** One flush, from start to end *)

(** X16. On a client with no flush in flight, [flush()] starts a flush
    for each buffer that holds something, the errors' first.  A flush whose
    promises are all fulfilled sends its buffer whole, in one request to its
    own endpoint (the errors to the ingest endpoint, the traces to the
    traces endpoint), and leaves it empty.  A flush whose wait for the key
    is rejected sends nothing and leaves its buffer as it was.  Nothing is
    sent for an empty buffer. *)
Theorem a_lone_flush_sends_each_buffer_whole (fulfilled : nat -> bool) (w : World) :
  tasks w = [] ->
  let traces := if buffer w is [] then 0%nat else 1%nat in
  let w' := play (Does DoFlush :: drive fulfilled 2) w in
  requests w' =
    requests w
      ++ (if buffer w is [] then []
          else if fulfilled 0%nat then [(IngestBatch, buffer w)] else [])
      ++ (if traceBuffer w is [] then []
          else if fulfilled traces then [(TracesBatch, traceBuffer w)] else []) /\
  buffer w' = (if fulfilled 0%nat then [] else buffer w) /\
  traceBuffer w' = (if fulfilled traces then [] else traceBuffer w).
Proof.
  destruct w as [now0 rng0 heap0 config0 buf tbuf costs tasks0 reqs].
  cbn [tasks buffer traceBuffer requests]. intros ->. unfold drive. cbn [seq flat_map].
  destruct buf as [|x buf], tbuf as [|y tbuf], (fulfilled 0%nat), (fulfilled 1%nat);
    cbn; rewrite ?app_nil_r, <- ?app_assoc; done.
Qed.

Lemma flush_without_a_key_sends_nothing :
  requests (play (Does DoFlush :: drive (fun _ => false) 2)
              (_pushTrace (VStr "payload") (capture (sample_error "first") sample_world)))
    = [] /\
  buffer (play (Does DoFlush :: drive (fun _ => false) 2)
            (_pushTrace (VStr "payload") (capture (sample_error "first") sample_world)))
    = [VObj (ingest_event (sample_error "first") sample_world)] /\
  traceBuffer (play (Does DoFlush :: drive (fun _ => false) 2)
                 (_pushTrace (VStr "payload")
                    (capture (sample_error "first") sample_world)))
    = [VStr "payload"].
Proof.
  apply (a_lone_flush_sends_each_buffer_whole (fun _ => false)
           (_pushTrace (VStr "payload") (capture (sample_error "first") sample_world))).
  reflexivity.
Defined.

(** ** Ending a span again *)

(** X17. Ending a span a second time overwrites the first end entirely:
    the span is left exactly as if it had been ended only the second time,
    so a metric the second end leaves out is lost even when the first had
    given it, and the latency runs from the start to the second end. *)
Theorem a_second_Span_end_replaces_the_first
  (r : SpanRef) (o1 o2 : SpanEndOptions.t) (ms : N) (w : World) :
  heap (span_end r o2 (later (Z.of_N ms) (span_end r o1 w)))
    = heap (span_end r o2 (later (Z.of_N ms) w)).
Proof.
  unfold span_end. destruct (heap w !! r) as [s|] eqn:Hr; cbn [heap later with_heap].
  - pose proof (lookup_lt_Some _ _ _ Hr) as Hlt.
    rewrite list_lookup_insert_eq, Hr by done. cbn.
    by rewrite list_insert_insert_eq.
  - by rewrite Hr.
Qed.
